(** * Lid-driven cavity flow: the pressure-projection solver of
      [src/navierstokes/flow.py]

    A shallow embedding of [build_up_b], [pressure_poisson] and
    [cavity_flow], and the properties the specification states about them.

    Modelling decisions.
    - A numpy array of shape [ny x nx] is a list of [ny] rows of [nx]
      scalars.  Every array of one run has the same shape (the data-model
      invariant of the specification); numpy's broadcasting between arrays
      of different shapes is outside the model.
    - The arithmetic is a parameter (class [Scalar]): the structural
      properties hold for every arithmetic, the algebraic ones are proved
      over the real numbers, as the specification calls the fields
      real-valued.  Rounding, infinities and NaN are not modelled; the
      range of a float at [** 2] is a field of the class.
    - The scalars [dt], [dx], [dy], [rho], [nu] are Python floats, as the
      driver passes them, so a scalar-by-scalar division by zero raises
      [ZeroDivisionError] and a scalar [** 2] that overflows raises
      [OverflowError]; an array divided by a zero scalar or squared does
      not raise, and neither do [+], [-], [*] and a division by a divisor
      that is not zero.
    - An integer index outside an axis raises [IndexError]; slices never
      raise.
    - The module-level globals [nit], [ny] and [nx] read by the functions
      are explicit arguments.
    - [np.empty_like] returns an array of arbitrary contents: these
      contents are arguments too ([pn0], [un0], [vn0]). *)

From Stdlib Require Import List Arith ZArith Bool Lia.
From Stdlib Require Import QArith Reals Lra.
Import ListNotations.

Close Scope R_scope.
Close Scope Q_scope.
Open Scope nat_scope.

Set Implicit Arguments.

(** ** Python outcomes *)

Inductive exn : Type := ZeroDivisionError | OverflowError | IndexError.

Inductive result (X : Type) : Type :=
| Ok (x : X)
| Raise (e : exn).

Arguments Ok {X} x.
Arguments Raise {X} e.

Definition bind {X Y : Type} (c : result X) (k : X -> result Y) : result Y :=
  match c with
  | Ok x => k x
  | Raise e => Raise e
  end.

Declare Scope py_scope.
Delimit Scope py_scope with py.
Notation "x <- c ;; k" := (bind c (fun x => k))
  (at level 61, c at next level, right associativity) : py_scope.

(** ** Scalars *)

Class Scalar (A : Type) : Type := {
  zero : A;
  one : A;
  two : A;
  add : A -> A -> A;
  sub : A -> A -> A;
  mul : A -> A -> A;
  div : A -> A -> A;
  sqr : A -> A;             (* x ** 2 *)
  is_zero : A -> bool;      (* x == 0 *)
  pow_overflows : A -> bool (* x ** 2 is out of the range of a float *)
}.

Declare Scope scalar_scope.
Delimit Scope scalar_scope with sc.
Infix "+" := add : scalar_scope.
Infix "-" := sub : scalar_scope.
Infix "*" := mul : scalar_scope.
Infix "/" := div : scalar_scope.

(** The real numbers, and, for runs that compute, the rationals kept in
    lowest terms. *)
#[export] Instance Scalar_R : Scalar R := {|
  zero := 0%R;
  one := 1%R;
  two := 2%R;
  add := Rplus;
  sub := Rminus;
  mul := Rmult;
  div := Rdiv;
  sqr := fun x => (x ^ 2)%R;
  is_zero := fun x => if Req_dec_T x 0 then true else false;
  pow_overflows := fun _ => false
|}.

#[export] Instance Scalar_Q : Scalar Q := {|
  zero := 0%Q;
  one := 1%Q;
  two := 2%Q;
  add := fun x y => Qred (x + y);
  sub := fun x y => Qred (x - y);
  mul := fun x y => Qred (x * y);
  div := fun x y => Qred (x / y);
  sqr := fun x => Qred (x ^ 2);
  is_zero := fun x => Qeq_bool x 0;
  pow_overflows := fun _ => false
|}.

(** The rationals with the range of a Python float at [x ** 2]: the square
    of a float rounds to infinity, and [**] raises, from [2^1024 - 2^970]
    on, and it rounds to zero up to [2^-1075].  The runs that use this
    arithmetic name it. *)
Definition Scalar_Q_range : Scalar Q := {|
  zero := 0%Q;
  one := 1%Q;
  two := 2%Q;
  add := fun x y => Qred (x + y);
  sub := fun x y => Qred (x - y);
  mul := fun x y => Qred (x * y);
  div := fun x y => Qred (x / y);
  sqr := fun x =>
    if Qle_bool (x ^ 2) (1 # 2 ^ 1075) then 0%Q else Qred (x ^ 2);
  is_zero := fun x => Qeq_bool x 0;
  pow_overflows := fun x => Qle_bool (inject_Z (2 ^ 1024 - 2 ^ 970)) (x ^ 2)
|}.

(** ** Small arrays for concrete runs *)

Definition ramp3_Q : list (list Q) := [[1; 2; 3]; [4; 5; 6]; [7; 8; 9]]%Q.

Definition zeros3_Q : list (list Q) := [[0; 0; 0]; [0; 0; 0]; [0; 0; 0]]%Q.

(** Two source arrays with the same interior cell and different edges. *)
Definition src3_Q : list (list Q) := [[1; 1; 1]; [1; 2; 1]; [1; 1; 1]]%Q.

Definition src3_other_Q : list (list Q) :=
  [[9; 8; 7]; [6; 2; 5]; [4; 3; 0]]%Q.

Definition ramp3_R : list (list R) := [[1; 2; 3]; [4; 5; 6]; [7; 8; 9]]%R.

Definition src3_R : list (list R) := [[1; 1; 1]; [1; 2; 1]; [1; 1; 1]]%R.

Definition zeros3_R : list (list R) := [[0; 0; 0]; [0; 0; 0]; [0; 0; 0]]%R.

(** The ramp with other values in its four corners. *)
Definition ramp3_corners_Q : list (list Q) :=
  [[100; 2; 300]; [4; 5; 6]; [700; 8; 900]]%Q.

(** A pressure that satisfies the boundary conditions, and velocities that
    satisfy theirs. *)
Definition bc3_Q : list (list Q) := [[5; 5; 5]; [5; 5; 5]; [0; 0; 0]]%Q.

Definition lid3_Q : list (list Q) := [[0; 0; 0]; [0; 5; 0]; [1; 1; 1]]%Q.

Definition walls3_Q : list (list Q) := [[0; 0; 0]; [0; 5; 0]; [0; 0; 0]]%Q.

(** ** Lists with positions *)

Fixpoint imap_from {X Y : Type} (k : nat) (f : nat -> X -> Y) (l : list X)
  : list Y :=
  match l with
  | [] => []
  | x :: t => f k x :: imap_from (S k) f t
  end.

Definition imap {X Y : Type} (f : nat -> X -> Y) (l : list X) : list Y :=
  imap_from 0 f l.

(** Python's reading of an integer index [k] on an axis of size [n]. *)
Definition index_ok (n : nat) (k : Z) : bool :=
  ((- Z.of_nat n <=? k) && (k <? Z.of_nat n))%Z.

Definition norm_index (n : nat) (k : Z) : nat :=
  if (k <? 0)%Z then Z.to_nat (Z.of_nat n + k) else Z.to_nat k.

Section Solver.

Context {A : Type} `{Scalar A}.

Local Open Scope py_scope.

Definition grid : Type := list (list A).

Definition nrows (g : grid) : nat := length g.

Definition ncols (g : grid) : nat :=
  match g with
  | [] => 0
  | r :: _ => length r
  end.

Definition get (g : grid) (i j : nat) : A := nth j (nth i g []) zero.

(** [g] has shape [ny x nx]. *)
Definition wf (ny nx : nat) (g : grid) : Prop :=
  length g = ny /\ Forall (fun r => length r = nx) g.

(** [g.copy()] *)
Definition copy (g : grid) : grid := g.

(** [np.zeros((ny, nx))] *)
Definition zeros (ny nx : nat) : grid := repeat (repeat zero nx) ny.

(** Assignment to the cells selected by [sel]; the others keep their
    value. *)
Definition gupdate (g : grid) (sel : nat -> nat -> bool) (val : nat -> nat -> A)
  : grid :=
  imap (fun i row => imap (fun j x => if sel i j then val i j else x) row) g.

(** The cells of the slice [[1:-1, 1:-1]] of an array of shape [ny x nx]. *)
Definition interior (ny nx i j : nat) : bool :=
  (1 <=? i) && (i + 1 <? ny) && (1 <=? j) && (j + 1 <? nx).

(** [g[1:-1, 1:-1] = val] *)
Definition set_interior (g : grid) (val : nat -> nat -> A) : grid :=
  gupdate g (interior (nrows g) (ncols g)) val.

(** [g[k, :]] and [g[:, k]] as views *)
Definition row_read (g : grid) (k : Z) : result (nat -> A) :=
  if index_ok (nrows g) k
  then Ok (fun j => get g (norm_index (nrows g) k) j)
  else Raise IndexError.

Definition col_read (g : grid) (k : Z) : result (nat -> A) :=
  if index_ok (ncols g) k
  then Ok (fun i => get g i (norm_index (ncols g) k))
  else Raise IndexError.

(** The cells of one row, of one column. *)
Definition set_row (g : grid) (r : nat) (val : nat -> A) : grid :=
  gupdate g (fun i _ => i =? r) (fun _ j => val j).

Definition set_col (g : grid) (c : nat) (val : nat -> A) : grid :=
  gupdate g (fun _ j => j =? c) (fun i _ => val i).

(** [g[k, :] = val] and [g[:, k] = val] *)
Definition row_assign (g : grid) (k : Z) (val : nat -> A) : result grid :=
  if index_ok (nrows g) k
  then Ok (set_row g (norm_index (nrows g) k) val)
  else Raise IndexError.

Definition col_assign (g : grid) (k : Z) (val : nat -> A) : result grid :=
  if index_ok (ncols g) k
  then Ok (set_col g (norm_index (ncols g) k) val)
  else Raise IndexError.

(** Division of a Python float by a Python float. *)
Definition sdiv (x y : A) : result A :=
  if is_zero y then Raise ZeroDivisionError else Ok (x / y)%sc.

(** [x ** 2] on a Python float. *)
Definition spow2 (x : A) : result A :=
  if pow_overflows x then Raise OverflowError else Ok (sqr x).

Local Notation "g .[ i , j ]" := (get g i j) (at level 1, i at level 99).

(** *** [build_up_b] *)

(** The right-hand side of lines 5-11 at the cell [(i, j)] of [b]:
    [u[1:-1, 2:]] is [u[i, j+1]] there, [u[1:-1, 0:-2]] is [u[i, j-1]],
    [v[2:, 1:-1]] is [v[i+1, j]] and [v[0:-2, 1:-1]] is [v[i-1, j]]. *)
Definition source_cell (rho inv_dt dx dy : A) (u v : grid) (i j : nat) : A :=
  (rho * (inv_dt *
          ((u.[i, j+1] - u.[i, j-1]) / (two * dx) +
           (v.[i+1, j] - v.[i-1, j]) / (two * dy)) -
          sqr ((u.[i, j+1] - u.[i, j-1]) / (two * dx)) -
          two * ((u.[i+1, j] - u.[i-1, j]) / (two * dy) *
                 (v.[i, j+1] - v.[i, j-1]) / (two * dx)) -
          sqr ((v.[i+1, j] - v.[i-1, j]) / (two * dy))))%sc.

Definition build_up_b (b : grid) (rho dt : A) (u v : grid) (dx dy : A)
  : result grid :=
  inv_dt <- sdiv one dt ;;
  Ok (set_interior b (source_cell rho inv_dt dx dy u v)).

(** *** [pressure_poisson] *)

(** The right-hand side of lines 21-25 at the cell [(i, j)] of [p];
    [coef] is [dx**2 * dy**2 / (2 * (dx**2 + dy**2))]. *)
Definition jacobi_cell (dx dy coef : A) (b pn : grid) (i j : nat) : A :=
  (((pn.[i, j+1] + pn.[i, j-1]) * sqr dy +
    (pn.[i+1, j] + pn.[i-1, j]) * sqr dx) /
   (two * (sqr dx + sqr dy)) -
   coef * b.[i, j])%sc.

(** The four boundary assignments of lines 27-30, in the order of the code. *)
Definition pressure_bc (p : grid) : result grid :=
  c <- col_read p (-2) ;; p <- col_assign p (-1) c ;;
  r <- row_read p 1 ;; p <- row_assign p 0 r ;;
  c <- col_read p 1 ;; p <- col_assign p 0 c ;;
  row_assign p (-1) (fun _ => zero).

(** The body of the loop [for q in range(nit)].  The right-hand side of
    lines 21-25 evaluates [dy**2] first, then [dx**2], and divides two
    scalars last. *)
Definition sweep (dx dy : A) (b p : grid) : result grid :=
  let pn := copy p in
  dy2 <- spow2 dy ;;
  dx2 <- spow2 dx ;;
  coef <- sdiv (dx2 * dy2)%sc (two * (dx2 + dy2))%sc ;;
  let p := set_interior p (jacobi_cell dx dy coef b pn) in
  pressure_bc p.

Fixpoint sweeps (n : nat) (dx dy : A) (b p : grid) : result grid :=
  match n with
  | O => Ok p
  | S n' => p' <- sweep dx dy b p ;; sweeps n' dx dy b p'
  end.

Definition pressure_poisson (pn0 : grid) (nit : Z) (p : grid) (dx dy : A)
  (b : grid) : result grid :=
  let pn := pn0 in            (* np.empty_like(p) *)
  let pn := copy p in
  sweeps (Z.to_nat nit) dx dy b p.

(** *** [cavity_flow] *)

(** The boundary assignments of lines 69-76. *)
Definition velocity_bc (u v : grid) : result (grid * grid) :=
  u <- row_assign u 0 (fun _ => zero) ;;
  u <- col_assign u 0 (fun _ => zero) ;;
  u <- col_assign u (-1) (fun _ => zero) ;;
  u <- row_assign u (-1) (fun _ => one) ;;
  v <- row_assign v 0 (fun _ => zero) ;;
  v <- row_assign v (-1) (fun _ => zero) ;;
  v <- col_assign v 0 (fun _ => zero) ;;
  v <- col_assign v (-1) (fun _ => zero) ;;
  Ok (u, v).

(** The state carried round the time loop. *)
Record fields : Type := Fields {
  f_u : grid;
  f_v : grid;
  f_p : grid;
  f_b : grid
}.

(** The right-hand sides of lines 47-56 and 58-67 at the cell [(i, j)];
    [gx] is [dt / (2 * rho * dx)], [gy] is [dt / (2 * rho * dy)], [kx] is
    [dt / dx**2] and [ky] is [dt / dy**2]. *)
Definition u_cell (dt dx dy gx kx ky nu : A) (un vn p : grid) (i j : nat)
  : A :=
  (un.[i, j] -
   un.[i, j] * dt / dx * (un.[i, j] - un.[i, j-1]) -
   vn.[i, j] * dt / dy * (un.[i, j] - un.[i-1, j]) -
   gx * (p.[i, j+1] - p.[i, j-1]) +
   nu * (kx * (un.[i, j+1] - two * un.[i, j] + un.[i, j-1]) +
         ky * (un.[i+1, j] - two * un.[i, j] + un.[i-1, j])))%sc.

Definition v_cell (dt dx dy gy kx ky nu : A) (un vn p : grid) (i j : nat)
  : A :=
  (vn.[i, j] -
   un.[i, j] * dt / dx * (vn.[i, j] - vn.[i, j-1]) -
   vn.[i, j] * dt / dy * (vn.[i, j] - vn.[i-1, j]) -
   gy * (p.[i+1, j] - p.[i-1, j]) +
   nu * (kx * (vn.[i, j+1] - two * vn.[i, j] + vn.[i, j-1]) +
         ky * (vn.[i+1, j] - two * vn.[i, j] + vn.[i-1, j])))%sc.

(** The body of the loop [for n in range(nt)]. *)
Definition timestep (pn0 : grid) (nit : Z) (dt dx dy rho nu : A) (s : fields)
  : result fields :=
  let u := f_u s in
  let v := f_v s in
  let un := copy u in
  let vn := copy v in
  b <- build_up_b (f_b s) rho dt u v dx dy ;;
  p <- pressure_poisson pn0 nit (f_p s) dx dy b ;;
  gx <- sdiv dt (two * rho * dx)%sc ;;
  dx2 <- spow2 dx ;;
  kx <- sdiv dt dx2 ;;
  dy2 <- spow2 dy ;;
  ky <- sdiv dt dy2 ;;
  let u := set_interior u (u_cell dt dx dy gx kx ky nu un vn p) in
  gy <- sdiv dt (two * rho * dy)%sc ;;
  dx2 <- spow2 dx ;;
  kx <- sdiv dt dx2 ;;
  dy2 <- spow2 dy ;;
  ky <- sdiv dt dy2 ;;
  let v := set_interior v (v_cell dt dx dy gy kx ky nu un vn p) in
  uv <- velocity_bc u v ;;
  Ok (Fields (fst uv) (snd uv) p b).

Fixpoint timesteps (n : nat) (pn0 : nat -> grid) (nit : Z)
  (dt dx dy rho nu : A) (s : fields) : result fields :=
  match n with
  | O => Ok s
  | S n' =>
      s' <- timestep (pn0 0) nit dt dx dy rho nu s ;;
      timesteps n' (fun k => pn0 (S k)) nit dt dx dy rho nu s'
  end.

(** [un0], [vn0] and [pn0 k] are the contents of the arrays that
    [np.empty_like] returns: [un0] and [vn0] at lines 36-37, [pn0 k] in the
    call of [pressure_poisson] of the timestep of index [k]. *)
Definition cavity_flow (un0 vn0 : grid) (pn0 : nat -> grid) (ny nx : nat)
  (nit : Z) (nt : Z) (u v : grid) (dt dx dy : A) (p : grid) (rho nu : A)
  : result (grid * grid * grid) :=
  let un := un0 in
  let vn := vn0 in
  let b := zeros ny nx in
  s <- timesteps (Z.to_nat nt) pn0 nit dt dx dy rho nu (Fields u v p b) ;;
  Ok (f_u s, f_v s, f_p s).


(** ** Properties named by the specification *)

(** The cells that [pressure_bc] leaves in an array of shape [ny x nx]. *)
Definition pressure_bc_cells (ny nx : nat) (p : grid) : grid :=
  let p := set_col p (nx - 1) (fun i => get p i (nx - 2)) in
  let p := set_row p 0 (fun j => get p 1 j) in
  let p := set_col p 0 (fun i => get p i 1) in
  set_row p (ny - 1) (fun _ => zero).

(** [p[-1,:] == 0], [p[:,-1] == p[:,-2]], [p[0,:] == p[1,:]] and
    [p[:,0] == p[:,1]]. *)
Definition pressure_bc_holds (ny nx : nat) (p : grid) : Prop :=
  (forall j, j < nx -> get p (ny - 1) j = zero) /\
  (forall i, i < ny -> get p i (nx - 1) = get p i (nx - 2)) /\
  (forall j, j < nx -> get p 0 j = get p 1 j) /\
  (forall i, i < ny -> get p i 0 = get p i 1).

(** The cells that [velocity_bc] leaves in arrays of shape [ny x nx]. *)
Definition velocity_bc_cells (ny nx : nat) (u v : grid) : grid * grid :=
  let u := set_row u 0 (fun _ => zero) in
  let u := set_col u 0 (fun _ => zero) in
  let u := set_col u (nx - 1) (fun _ => zero) in
  let u := set_row u (ny - 1) (fun _ => one) in
  let v := set_row v 0 (fun _ => zero) in
  let v := set_row v (ny - 1) (fun _ => zero) in
  let v := set_col v 0 (fun _ => zero) in
  let v := set_col v (nx - 1) (fun _ => zero) in
  (u, v).

(** [v] is zero on the four edges. *)
Definition zero_on_edges (ny nx : nat) (v : grid) : Prop :=
  (forall j, j < nx -> get v 0 j = zero) /\
  (forall j, j < nx -> get v (ny - 1) j = zero) /\
  (forall i, i < ny -> get v i 0 = zero) /\
  (forall i, i < ny -> get v i (nx - 1) = zero).

(** The velocity boundary conditions with every edge complete, corners
    included: [u[-1,:] == 1], [u[0,:] == 0], [u[:,0] == 0], [u[:,-1] == 0]
    and [v] zero on the four edges. *)
Definition velocity_bc_full (ny nx : nat) (u v : grid) : Prop :=
  (forall j, j < nx -> get u (ny - 1) j = one) /\
  (forall j, j < nx -> get u 0 j = zero) /\
  (forall i, i < ny -> get u i 0 = zero) /\
  (forall i, i < ny -> get u i (nx - 1) = zero) /\
  zero_on_edges ny nx v.

(** The same, the side walls of [u] stopping short of the lid row. *)
Definition velocity_bc_lid (ny nx : nat) (u v : grid) : Prop :=
  (forall j, j < nx -> get u (ny - 1) j = one) /\
  (forall j, j < nx -> get u 0 j = zero) /\
  (forall i, i + 1 < ny -> get u i 0 = zero) /\
  (forall i, i + 1 < ny -> get u i (nx - 1) = zero) /\
  zero_on_edges ny nx v.

(** [g] holds the same value in every cell. *)
Definition uniform (ny nx : nat) (g : grid) : Prop :=
  forall i j i' j', i < ny -> j < nx -> i' < ny -> j' < nx ->
    get g i j = get g i' j'.

(** [b1] and [b2] agree on the slice [[1:-1, 1:-1]]. *)
Definition agree_inside (ny nx : nat) (b1 b2 : grid) : Prop :=
  forall i j, interior ny nx i j = true -> get b1 i j = get b2 i j.

(** *** The formulas as the specification writes them *)

(** Section 4.2, step 2. *)
Definition jacobi_cell_spec (dx dy : A) (b p_prev : grid) (i j : nat) : A :=
  (((p_prev.[i, j+1] + p_prev.[i, j-1]) * sqr dy +
    (p_prev.[i+1, j] + p_prev.[i-1, j]) * sqr dx -
    sqr dx * sqr dy * b.[i, j]) /
   (two * (sqr dx + sqr dy)))%sc.

(** Section 4.2, step 3: right, top, left, then bottom edge. *)
Definition boundary_spec (p : grid) : grid :=
  let ny := nrows p in
  let nx := ncols p in
  let p := set_col p (nx - 1) (fun i => p.[i, nx - 2]) in
  let p := set_row p 0 (fun j => p.[1, j]) in
  let p := set_col p 0 (fun i => p.[i, 1]) in
  set_row p (ny - 1) (fun _ => zero).

(** Section 4.2: one iteration. *)
Definition jacobi_sweep_spec (dx dy : A) (b p : grid) : grid :=
  let p_prev := p in
  boundary_spec (set_interior p (jacobi_cell_spec dx dy b p_prev)).

(** Section 4.1: centered differences and the source term. *)
Definition ddx (dx : A) (g : grid) (i j : nat) : A :=
  ((g.[i, j+1] - g.[i, j-1]) / (two * dx))%sc.

Definition ddy (dy : A) (g : grid) (i j : nat) : A :=
  ((g.[i+1, j] - g.[i-1, j]) / (two * dy))%sc.

Definition source_term_spec (rho dt dx dy : A) (u v : grid) (i j : nat) : A :=
  (rho * ((one / dt) * (ddx dx u i j + ddy dy v i j) -
          sqr (ddx dx u i j) -
          two * ddy dy u i j * ddx dx v i j -
          sqr (ddy dy v i j)))%sc.

(** Section 4.3: the interior update of [u], and its analogue for [v]. *)
Definition u_update_spec (dt dx dy rho nu : A) (un vn p : grid) (i j : nat)
  : A :=
  (un.[i, j]
   - un.[i, j] * dt / dx * (un.[i, j] - un.[i, j-1])
   - vn.[i, j] * dt / dy * (un.[i, j] - un.[i-1, j])
   - dt / (two * rho * dx) * (p.[i, j+1] - p.[i, j-1])
   + nu * dt / sqr dx * (un.[i, j+1] - two * un.[i, j] + un.[i, j-1])
   + nu * dt / sqr dy * (un.[i+1, j] - two * un.[i, j] + un.[i-1, j]))%sc.

Definition v_update_spec (dt dx dy rho nu : A) (un vn p : grid) (i j : nat)
  : A :=
  (vn.[i, j]
   - un.[i, j] * dt / dx * (vn.[i, j] - vn.[i, j-1])
   - vn.[i, j] * dt / dy * (vn.[i, j] - vn.[i-1, j])
   - dt / (two * rho * dy) * (p.[i+1, j] - p.[i-1, j])
   + nu * dt / sqr dx * (vn.[i, j+1] - two * vn.[i, j] + vn.[i, j-1])
   + nu * dt / sqr dy * (vn.[i+1, j] - two * vn.[i, j] + vn.[i-1, j]))%sc.

(** The array that one iteration of [pressure_poisson] leaves, and the
    fields that one timestep leaves, when nothing raises. *)
Definition sweep_cells (ny nx : nat) (dx dy : A) (b p : grid) : grid :=
  pressure_bc_cells ny nx
    (set_interior p
       (jacobi_cell dx dy
          (sqr dx * sqr dy / (two * (sqr dx + sqr dy)))%sc b p)).

Definition u_interior (dt dx dy rho nu : A) (u v p : grid) : grid :=
  set_interior u
    (u_cell dt dx dy (dt / (two * rho * dx))%sc (dt / sqr dx)%sc
       (dt / sqr dy)%sc nu u v p).

Definition v_interior (dt dx dy rho nu : A) (u v p : grid) : grid :=
  set_interior v
    (v_cell dt dx dy (dt / (two * rho * dy))%sc (dt / sqr dx)%sc
       (dt / sqr dy)%sc nu u v p).

(** No scalar division of the solver has a zero divisor. *)
Definition divisors_nonzero (dt dx dy rho : A) : Prop :=
  is_zero dt = false /\
  is_zero (two * (sqr dx + sqr dy))%sc = false /\
  is_zero (two * rho * dx)%sc = false /\
  is_zero (two * rho * dy)%sc = false /\
  is_zero (sqr dx) = false /\
  is_zero (sqr dy) = false.

(** Neither [dx ** 2] nor [dy ** 2] overflows. *)
Definition squares_defined (dx dy : A) : Prop :=
  pow_overflows dx = false /\ pow_overflows dy = false.

(** No scalar operation of the solver raises. *)
Definition scalars_defined (dt dx dy rho : A) : Prop :=
  squares_defined dx dy /\ divisors_nonzero dt dx dy rho.

(** The arrays of the time loop all have shape [ny x nx]. *)
Definition wf_fields (ny nx : nat) (s : fields) : Prop :=
  wf ny nx (f_u s) /\ wf ny nx (f_v s) /\ wf ny nx (f_p s) /\ wf ny nx (f_b s).

(** The fields that one timestep leaves from [s], given the pressure [p]
    and the source term [b] it computed. *)
Definition timestep_cells (ny nx : nat) (dt dx dy rho nu : A) (s : fields)
  (p b : grid) : fields :=
  let uv := velocity_bc_cells ny nx
              (u_interior dt dx dy rho nu (f_u s) (f_v s) p)
              (v_interior dt dx dy rho nu (f_u s) (f_v s) p) in
  Fields (fst uv) (snd uv) p b.

(** [b] holds zero in every cell outside the slice [[1:-1, 1:-1]]. *)
Definition boundary_zero (ny nx : nat) (b : grid) : Prop :=
  forall i j, interior ny nx i j = false -> get b i j = zero.

(** What [cavity_flow] returns of the state of its loop. *)
Definition returned (s : fields) : result (grid * grid * grid) :=
  Ok (f_u s, f_v s, f_p s).

(** The four corner cells of an array of shape [ny x nx]. *)
Definition corner (ny nx i j : nat) : bool :=
  ((i =? 0) || (i =? ny - 1)) && ((j =? 0) || (j =? nx - 1)).

(** [g1] and [g2] hold the same values except, perhaps, in the corners. *)
Definition agree_off_corners (ny nx : nat) (g1 g2 : grid) : Prop :=
  forall i j, i < ny -> j < nx -> corner ny nx i j = false ->
    get g1 i j = get g2 i j.

(** *** The script of [flow.py], up to the call of [cavity_flow]

    Lines 95-114; the plotting calls that follow are left out.  [of_int]
    is the conversion of a Python integer to a float and [point_one] the
    float literal [.1]. *)

(** [np.linspace] raises [ValueError] on a negative number of samples. *)
Inductive script_exn : Type :=
| ValueError
| Propagated (e : exn).

Inductive outcome (X : Type) : Type :=
| Finished (x : X)
| Aborted (e : script_exn).

#[global] Arguments Finished {X} x.
#[global] Arguments Aborted {X} e.

Definition and_then {X Y : Type} (c : outcome X) (k : X -> outcome Y)
  : outcome Y :=
  match c with
  | Finished x => k x
  | Aborted e => Aborted e
  end.

Definition lift {X : Type} (c : result X) : outcome X :=
  match c with
  | Ok x => Finished x
  | Raise e => Aborted (Propagated e)
  end.

(** [a / b] on two Python integers. *)
Definition int_div (of_int : Z -> A) (a b : Z) : outcome A :=
  if (b =? 0)%Z then Aborted (Propagated ZeroDivisionError)
  else Finished (of_int a / of_int b)%sc.

(** [np.linspace(start, stop, num)]: [num] samples [start + k * step] with
    [step = (stop - start) / (num - 1)], the last one set to [stop] when
    there are two samples or more. *)
Definition linspace (of_int : Z -> A) (start stop : A) (num : Z)
  : outcome (list A) :=
  if (num <? 0)%Z then Aborted ValueError
  else
    let n := Z.to_nat num in
    let step := ((stop - start) / of_int (num - 1)%Z)%sc in
    Finished
      (imap (fun k _ =>
               if (2 <=? n) && (k =? n - 1) then stop
               else (of_int (Z.of_nat k) * step + start)%sc)
            (repeat zero n)).

(** [np.meshgrid(x, y)] *)
Definition meshgrid (x y : list A) : grid * grid :=
  (map (fun _ => x) y, map (fun yi => map (fun _ => yi) x) y).

Definition script (of_int : Z -> A) (point_one : A) (un0 vn0 : grid)
  (pn0 : nat -> grid) (nx ny : Z) (dt : A)
  : outcome (grid * grid * (grid * grid * grid)) :=
  let nt := 700%Z in
  let nit := 50%Z in
  and_then (int_div of_int 2%Z (nx - 1)%Z) (fun dx =>
  and_then (int_div of_int 2%Z (ny - 1)%Z) (fun dy =>
  and_then (linspace of_int zero two nx) (fun x =>
  and_then (linspace of_int zero two ny) (fun y =>
  let XY := meshgrid x y in
  let rho := one in
  let nu := point_one in
  let u := zeros (Z.to_nat ny) (Z.to_nat nx) in
  let v := zeros (Z.to_nat ny) (Z.to_nat nx) in
  let p := zeros (Z.to_nat ny) (Z.to_nat nx) in
  let b := zeros (Z.to_nat ny) (Z.to_nat nx) in
  and_then
    (lift (cavity_flow un0 vn0 pn0 (Z.to_nat ny) (Z.to_nat nx) nit nt
             u v dt dx dy p rho nu))
    (fun uvp => Finished (fst XY, snd XY, uvp)))))).

(** ** Shapes and cell-wise reading of the assignments *)

Lemma imap_from_length {X Y : Type} (f : nat -> X -> Y) (l : list X) (k : nat) :
  length (imap_from k f l) = length l.
Proof.
  revert k; induction l as [|x t IH]; intros k; simpl; [reflexivity|].
  now rewrite IH.
Qed.

Lemma nth_imap_from {X Y : Type} (f : nat -> X -> Y) (dx : X) (dy : Y)
  (l : list X) (k i : nat) :
  nth i (imap_from k f l) dy =
  if i <? length l then f (k + i) (nth i l dx) else dy.
Proof.
  revert k i; induction l as [|x t IH]; intros k i; simpl.
  - now destruct i.
  - destruct i as [|i].
    + now rewrite Nat.add_0_r.
    + rewrite IH. replace (S k + i) with (k + S i) by lia.
      reflexivity.
Qed.

Lemma wf_row (ny nx : nat) (g : grid) (i : nat) :
  wf ny nx g -> i < ny -> length (nth i g []) = nx.
Proof.
  intros [L F] Hi. rewrite Forall_forall in F.
  apply F, nth_In. lia.
Qed.

Lemma wf_nrows (ny nx : nat) (g : grid) : wf ny nx g -> nrows g = ny.
Proof. now intros [L _]. Qed.

Lemma wf_ncols (ny nx : nat) (g : grid) :
  wf ny nx g -> 1 <= ny -> ncols g = nx.
Proof.
  intros [L F] Hy. destruct g as [|r t]; simpl in *; [lia|].
  now inversion F.
Qed.

Lemma wf_zeros (ny nx : nat) : wf ny nx (zeros ny nx).
Proof.
  split.
  - apply repeat_length.
  - apply Forall_forall. intros r Hr.
    apply repeat_spec in Hr. subst r. apply repeat_length.
Qed.

Lemma wf_gupdate (ny nx : nat) (g : grid) sel val :
  wf ny nx g -> wf ny nx (gupdate g sel val).
Proof.
  intros [L F]. unfold gupdate, imap. split.
  - now rewrite imap_from_length.
  - apply Forall_forall. intros r Hr.
    destruct (In_nth _ _ [] Hr) as [i [Hi Hn]].
    rewrite imap_from_length in Hi.
    rewrite (nth_imap_from _ [] []) in Hn.
    apply Nat.ltb_lt in Hi as Hb. rewrite Hb in Hn. subst r.
    rewrite imap_from_length. apply (wf_row (ny:=ny)); [now split | lia].
Qed.

Lemma get_gupdate (ny nx : nat) (g : grid) sel val (i j : nat) :
  wf ny nx g ->
  get (gupdate g sel val) i j =
  if (i <? ny) && (j <? nx) && sel i j then val i j else get g i j.
Proof.
  intros W. unfold get, gupdate, imap.
  rewrite (nth_imap_from _ [] []). destruct W as [L F].
  rewrite L. destruct (i <? ny) eqn:Hi; simpl.
  - apply Nat.ltb_lt in Hi.
    rewrite (nth_imap_from _ zero zero).
    rewrite (wf_row (ny:=ny) (nx:=nx)); [|now split|exact Hi].
    destruct (j <? nx) eqn:Hj; simpl; [reflexivity|].
    apply Nat.ltb_ge in Hj. symmetry. apply nth_overflow.
    rewrite (wf_row (ny:=ny) (nx:=nx)); [exact Hj|now split|exact Hi].
  - apply Nat.ltb_ge in Hi.
    rewrite (nth_overflow g) by lia. now destruct j.
Qed.

(** Two arrays of one shape with the same cells are the same array. *)
Lemma grid_ext (ny nx : nat) (g1 g2 : grid) :
  wf ny nx g1 -> wf ny nx g2 ->
  (forall i j, i < ny -> j < nx -> get g1 i j = get g2 i j) ->
  g1 = g2.
Proof.
  intros W1 W2 E.
  apply (nth_ext _ _ [] []).
  - destruct W1, W2. congruence.
  - intros i Hi. destruct W1 as [L1 F1]. rewrite L1 in Hi.
    assert (W1 : wf ny nx g1) by now split.
    apply (nth_ext _ _ zero zero).
    + now rewrite (wf_row W1 Hi), (wf_row W2 Hi).
    + intros j Hj. rewrite (wf_row W1 Hi) in Hj. now apply E.
Qed.

Lemma wf_set_row (ny nx : nat) (g : grid) r val :
  wf ny nx g -> wf ny nx (set_row g r val).
Proof. apply wf_gupdate. Qed.

Lemma wf_set_col (ny nx : nat) (g : grid) c val :
  wf ny nx g -> wf ny nx (set_col g c val).
Proof. apply wf_gupdate. Qed.

Lemma wf_set_interior (ny nx : nat) (g : grid) val :
  wf ny nx g -> wf ny nx (set_interior g val).
Proof. apply wf_gupdate. Qed.

Lemma get_set_row (ny nx : nat) (g : grid) r val (i j : nat) :
  wf ny nx g ->
  get (set_row g r val) i j =
  if (i <? ny) && (j <? nx) && (i =? r) then val j else get g i j.
Proof.
  intros W. unfold set_row.
  now rewrite get_gupdate with (ny := ny) (nx := nx) by exact W.
Qed.

Lemma get_set_col (ny nx : nat) (g : grid) c val (i j : nat) :
  wf ny nx g ->
  get (set_col g c val) i j =
  if (i <? ny) && (j <? nx) && (j =? c) then val i else get g i j.
Proof.
  intros W. unfold set_col.
  now rewrite get_gupdate with (ny := ny) (nx := nx) by exact W.
Qed.

Lemma get_set_interior (ny nx : nat) (g : grid) val (i j : nat) :
  wf ny nx g ->
  get (set_interior g val) i j =
  if interior ny nx i j then val i j else get g i j.
Proof.
  intros W. unfold set_interior.
  rewrite get_gupdate with (ny := ny) (nx := nx) by exact W.
  rewrite (wf_nrows W).
  destruct (Nat.eq_dec ny 0) as [->|Hy].
  - unfold interior. replace (i + 1 <? 0) with false
      by (symmetry; apply Nat.ltb_ge; lia).
    now rewrite !andb_false_r.
  - rewrite (wf_ncols W) by lia.
    unfold interior.
    destruct (i <? ny) eqn:E1, (j <? nx) eqn:E2, (1 <=? i) eqn:E3,
      (i + 1 <? ny) eqn:E4, (1 <=? j) eqn:E5, (j + 1 <? nx) eqn:E6;
      simpl; try reflexivity;
      repeat match goal with
        | H : (_ <? _) = true |- _ => apply Nat.ltb_lt in H
        | H : (_ <? _) = false |- _ => apply Nat.ltb_ge in H
        | H : (_ <=? _) = true |- _ => apply Nat.leb_le in H
        | H : (_ <=? _) = false |- _ => apply Nat.leb_gt in H
        end; lia.
Qed.

Lemma set_interior_ext (ny nx : nat) (g : grid) val1 val2 :
  wf ny nx g ->
  (forall i j, interior ny nx i j = true -> val1 i j = val2 i j) ->
  set_interior g val1 = set_interior g val2.
Proof.
  intros W E. apply (grid_ext (ny:=ny) (nx:=nx)); try now apply wf_set_interior.
  intros i j _ _.
  rewrite !get_set_interior with (ny := ny) (nx := nx) by exact W.
  destruct (interior ny nx i j) eqn:I; [now apply E|reflexivity].
Qed.

(** *** Integer indices *)

Lemma index_ok_nonneg (n : nat) (k : Z) :
  (0 <= k < Z.of_nat n)%Z -> index_ok n k = true.
Proof.
  intros K. unfold index_ok. apply andb_true_iff. split.
  - apply Z.leb_le. lia.
  - apply Z.ltb_lt. lia.
Qed.

Lemma index_ok_neg (n : nat) (k : Z) :
  (- Z.of_nat n <= k < 0)%Z -> index_ok n k = true.
Proof.
  intros K. unfold index_ok. apply andb_true_iff. split.
  - apply Z.leb_le. lia.
  - apply Z.ltb_lt. lia.
Qed.

Lemma norm_index_neg (n : nat) (k : Z) :
  (- Z.of_nat n <= k < 0)%Z -> norm_index n k = n - Z.to_nat (- k).
Proof.
  intros K. unfold norm_index.
  destruct (Z.ltb_spec k 0); lia.
Qed.

Lemma norm_index_m1 (n : nat) : 1 <= n -> norm_index n (-1) = n - 1.
Proof. intros N. rewrite norm_index_neg by lia. reflexivity. Qed.

Lemma norm_index_m2 (n : nat) : 2 <= n -> norm_index n (-2) = n - 2.
Proof. intros N. rewrite norm_index_neg by lia. reflexivity. Qed.

Lemma norm_index_0 (n : nat) : norm_index n 0 = 0.
Proof. reflexivity. Qed.

Lemma norm_index_1 (n : nat) : norm_index n 1 = 1.
Proof. reflexivity. Qed.

Lemma row_assign_ok (ny nx : nat) (g : grid) (k : Z) val :
  wf ny nx g -> index_ok ny k = true ->
  row_assign g k val = Ok (set_row g (norm_index ny k) val).
Proof.
  intros W K. unfold row_assign. now rewrite (wf_nrows W), K.
Qed.

Lemma col_assign_ok (ny nx : nat) (g : grid) (k : Z) val :
  wf ny nx g -> 1 <= ny -> index_ok nx k = true ->
  col_assign g k val = Ok (set_col g (norm_index nx k) val).
Proof.
  intros W Y K. unfold col_assign. now rewrite (wf_ncols W Y), K.
Qed.

Lemma row_read_ok (ny nx : nat) (g : grid) (k : Z) :
  wf ny nx g -> index_ok ny k = true ->
  row_read g k = Ok (fun j => get g (norm_index ny k) j).
Proof.
  intros W K. unfold row_read. now rewrite (wf_nrows W), K.
Qed.

Lemma col_read_ok (ny nx : nat) (g : grid) (k : Z) :
  wf ny nx g -> 1 <= ny -> index_ok nx k = true ->
  col_read g k = Ok (fun i => get g i (norm_index nx k)).
Proof.
  intros W Y K. unfold col_read. now rewrite (wf_ncols W Y), K.
Qed.

(** An assignment that returns needed its index to be in range. *)
Lemma row_assign_inv (g g' : grid) (k : Z) val :
  row_assign g k val = Ok g' ->
  index_ok (nrows g) k = true /\ g' = set_row g (norm_index (nrows g) k) val.
Proof.
  unfold row_assign. destruct (index_ok (nrows g) k); [|discriminate].
  intros E. injection E as <-. now split.
Qed.

Lemma col_assign_inv (g g' : grid) (k : Z) val :
  col_assign g k val = Ok g' ->
  index_ok (ncols g) k = true /\ g' = set_col g (norm_index (ncols g) k) val.
Proof.
  unfold col_assign. destruct (index_ok (ncols g) k); [|discriminate].
  intros E. injection E as <-. now split.
Qed.

Lemma bind_inv {X Y : Type} (c : result X) (k : X -> result Y) (y : Y) :
  bind c k = Ok y -> exists x, c = Ok x /\ k x = Ok y.
Proof.
  destruct c as [x|e]; simpl; [|discriminate].
  intros E. now exists x.
Qed.

End Solver.

Notation "g .[ i , j ]" := (get g i j) (at level 1, i at level 99).

(** Shapes survive every assignment. *)
Ltac wf_tac :=
  repeat first [ apply wf_set_row | apply wf_set_col | apply wf_set_interior
               | apply wf_gupdate | apply wf_zeros ];
  eassumption.

(** Reading a cell through a stack of assignments to an array of shape
    [ny x nx]. *)
Ltac get_cells ny nx :=
  repeat first
    [ rewrite get_set_row with (ny := ny) (nx := nx) by wf_tac
    | rewrite get_set_col with (ny := ny) (nx := nx) by wf_tac
    | rewrite get_set_interior with (ny := ny) (nx := nx) by wf_tac
    | progress cbv beta ].

(** Case analysis on the index tests that the readings leave. *)
Ltac split_tests :=
  repeat (match goal with
          | |- context [Nat.ltb ?a ?b] => destruct (Nat.ltb_spec a b)
          | |- context [Nat.eqb ?a ?b] => destruct (Nat.eqb_spec a b)
          | |- context [Nat.leb ?a ?b] => destruct (Nat.leb_spec a b)
          end; try lia; cbn [andb]).

Section Boundary.

Context {A : Type} `{Scalar A}.

Local Abbreviation grid := (@grid A) (only parsing).

(** ** The boundary assignments *)

Lemma wf_pressure_bc_cells (ny nx : nat) (p : grid) :
  wf ny nx p -> wf ny nx (pressure_bc_cells ny nx p).
Proof.
  intros W. unfold pressure_bc_cells.
  repeat first [apply wf_set_row | apply wf_set_col]. exact W.
Qed.

Lemma pressure_bc_ok (ny nx : nat) (p : grid) :
  wf ny nx p -> 2 <= ny -> 2 <= nx ->
  pressure_bc p = Ok (pressure_bc_cells ny nx p).
Proof.
  intros W Y X. unfold pressure_bc, pressure_bc_cells.
  rewrite (col_read_ok (-2) W) by (try apply index_ok_neg; lia). simpl.
  rewrite (col_assign_ok (-1) _ W) by (try apply index_ok_neg; lia). simpl.
  set (p1 := set_col p _ _).
  assert (W1 : wf ny nx p1) by now apply wf_set_col.
  rewrite (row_read_ok 1 W1) by (apply index_ok_nonneg; lia). simpl.
  rewrite (row_assign_ok 0 _ W1) by (apply index_ok_nonneg; lia). simpl.
  set (p2 := set_row p1 _ _).
  assert (W2 : wf ny nx p2) by now apply wf_set_row.
  rewrite (col_read_ok 1 W2) by (try apply index_ok_nonneg; lia). simpl.
  rewrite (col_assign_ok 0 _ W2) by (try apply index_ok_nonneg; lia). simpl.
  set (p3 := set_col p2 _ _).
  assert (W3 : wf ny nx p3) by now apply wf_set_col.
  rewrite (row_assign_ok (-1) _ W3) by (apply index_ok_neg; lia).
  subst p3 p2 p1.
  rewrite !norm_index_m1, !norm_index_m2, !norm_index_0, !norm_index_1 by lia.
  reflexivity.
Qed.


Lemma pressure_bc_cells_holds (ny nx : nat) (p : grid) :
  wf ny nx p -> 3 <= ny -> 3 <= nx ->
  pressure_bc_holds ny nx (pressure_bc_cells ny nx p).
Proof.
  intros W Y X. unfold pressure_bc_holds, pressure_bc_cells.
  repeat split; intros k K; get_cells ny nx; split_tests;
    try reflexivity; try (f_equal; lia).
Qed.

Lemma row_assign_wf (ny nx : nat) (g g' : grid) (k : Z) val :
  wf ny nx g -> row_assign g k val = Ok g' -> wf ny nx g'.
Proof.
  intros W E. apply row_assign_inv in E as [_ ->]. now apply wf_set_row.
Qed.

Lemma col_assign_wf (ny nx : nat) (g g' : grid) (k : Z) val :
  wf ny nx g -> col_assign g k val = Ok g' -> wf ny nx g'.
Proof.
  intros W E. apply col_assign_inv in E as [_ ->]. now apply wf_set_col.
Qed.

Lemma pressure_bc_wf (ny nx : nat) (p p' : grid) :
  wf ny nx p -> pressure_bc p = Ok p' -> wf ny nx p'.
Proof.
  intros W E. unfold pressure_bc in E.
  apply bind_inv in E as (c1 & _ & E).
  apply bind_inv in E as (p1 & E1 & E).
  apply bind_inv in E as (r2 & _ & E).
  apply bind_inv in E as (p2 & E2 & E).
  apply bind_inv in E as (c3 & _ & E).
  apply bind_inv in E as (p3 & E3 & E).
  eapply row_assign_wf; [|exact E].
  eapply col_assign_wf; [|exact E3].
  eapply row_assign_wf; [|exact E2].
  eapply col_assign_wf; [|exact E1].
  exact W.
Qed.

Lemma wf_velocity_bc_cells_u (ny nx : nat) (u v : grid) :
  wf ny nx u -> wf ny nx (fst (velocity_bc_cells ny nx u v)).
Proof.
  intros U. unfold velocity_bc_cells; simpl. wf_tac.
Qed.

Lemma wf_velocity_bc_cells_v (ny nx : nat) (u v : grid) :
  wf ny nx v -> wf ny nx (snd (velocity_bc_cells ny nx u v)).
Proof.
  intros V. unfold velocity_bc_cells; simpl. wf_tac.
Qed.

Lemma velocity_bc_ok (ny nx : nat) (u v : grid) :
  wf ny nx u -> wf ny nx v -> 1 <= ny -> 1 <= nx ->
  velocity_bc u v = Ok (velocity_bc_cells ny nx u v).
Proof.
  intros U V Y X. unfold velocity_bc, velocity_bc_cells.
  rewrite (row_assign_ok 0 _ U) by (apply index_ok_nonneg; lia). simpl.
  set (u1 := set_row u _ _).
  assert (U1 : wf ny nx u1) by (subst u1; wf_tac).
  rewrite (col_assign_ok 0 _ U1) by (try apply index_ok_nonneg; lia). simpl.
  set (u2 := set_col u1 _ _).
  assert (U2 : wf ny nx u2) by (subst u2; wf_tac).
  rewrite (col_assign_ok (-1) _ U2) by (try apply index_ok_neg; lia). simpl.
  set (u3 := set_col u2 _ _).
  assert (U3 : wf ny nx u3) by (subst u3; wf_tac).
  rewrite (row_assign_ok (-1) _ U3) by (apply index_ok_neg; lia). simpl.
  rewrite (row_assign_ok 0 _ V) by (apply index_ok_nonneg; lia). simpl.
  set (v1 := set_row v _ _).
  assert (V1 : wf ny nx v1) by (subst v1; wf_tac).
  rewrite (row_assign_ok (-1) _ V1) by (apply index_ok_neg; lia). simpl.
  set (v2 := set_row v1 _ _).
  assert (V2 : wf ny nx v2) by (subst v2; wf_tac).
  rewrite (col_assign_ok 0 _ V2) by (try apply index_ok_nonneg; lia). simpl.
  set (v3 := set_col v2 _ _).
  assert (V3 : wf ny nx v3) by (subst v3; wf_tac).
  rewrite (col_assign_ok (-1) _ V3) by (try apply index_ok_neg; lia). simpl.
  subst u1 u2 u3 v1 v2 v3.
  rewrite !norm_index_m1, !norm_index_0 by lia.
  reflexivity.
Qed.

Lemma velocity_bc_cells_lid (ny nx : nat) (u v : grid) :
  wf ny nx u -> wf ny nx v -> 2 <= ny -> 1 <= nx ->
  velocity_bc_lid ny nx (fst (velocity_bc_cells ny nx u v))
                        (snd (velocity_bc_cells ny nx u v)).
Proof.
  intros U V Y X. unfold velocity_bc_lid, zero_on_edges, velocity_bc_cells.
  simpl. repeat split; intros k K; get_cells ny nx; split_tests;
    try reflexivity; try (f_equal; lia).
Qed.

(** The lid row is written last: its two end cells hold [one]. *)
Lemma velocity_bc_cells_corner (ny nx : nat) (u v : grid) :
  wf ny nx u -> 1 <= ny -> 1 <= nx ->
  get (fst (velocity_bc_cells ny nx u v)) (ny - 1) 0 = one /\
  get (fst (velocity_bc_cells ny nx u v)) (ny - 1) (nx - 1) = one.
Proof.
  intros U Y X. unfold velocity_bc_cells. simpl.
  split; get_cells ny nx; split_tests; reflexivity.
Qed.

(** The boundary assignments leave the slice [[1:-1, 1:-1]] alone. *)
Lemma velocity_bc_cells_interior (ny nx : nat) (u v : grid) (i j : nat) :
  wf ny nx u -> wf ny nx v -> interior ny nx i j = true ->
  get (fst (velocity_bc_cells ny nx u v)) i j = get u i j /\
  get (snd (velocity_bc_cells ny nx u v)) i j = get v i j.
Proof.
  intros U V I. unfold interior in I.
  repeat (apply andb_true_iff in I as [I ?]).
  repeat match goal with
         | H : (_ <? _) = true |- _ => apply Nat.ltb_lt in H
         | H : (_ <=? _) = true |- _ => apply Nat.leb_le in H
         end.
  unfold velocity_bc_cells. simpl.
  split; get_cells ny nx; split_tests; reflexivity.
Qed.

Lemma pressure_bc_cells_interior (ny nx : nat) (p : grid) (i j : nat) :
  wf ny nx p -> interior ny nx i j = true ->
  get (pressure_bc_cells ny nx p) i j = get p i j.
Proof.
  intros W I. unfold interior in I.
  repeat (apply andb_true_iff in I as [I ?]).
  repeat match goal with
         | H : (_ <? _) = true |- _ => apply Nat.ltb_lt in H
         | H : (_ <=? _) = true |- _ => apply Nat.leb_le in H
         end.
  unfold pressure_bc_cells.
  get_cells ny nx; split_tests; reflexivity.
Qed.

(** ** One iteration of [pressure_poisson] *)

Lemma wf_sweep_cells (ny nx : nat) (dx dy : A) (b p : grid) :
  wf ny nx p -> wf ny nx (sweep_cells ny nx dx dy b p).
Proof.
  intros W. unfold sweep_cells. apply wf_pressure_bc_cells. wf_tac.
Qed.

Lemma sdiv_inv (x y c : A) :
  sdiv x y = Ok c -> is_zero y = false /\ c = (x / y)%sc.
Proof.
  unfold sdiv. destruct (is_zero y); [discriminate|].
  intros E. injection E as <-. now split.
Qed.

Lemma sdiv_ok (x y : A) : is_zero y = false -> sdiv x y = Ok (x / y)%sc.
Proof. intros Z. unfold sdiv. now rewrite Z. Qed.

Lemma spow2_inv (x y : A) :
  spow2 x = Ok y -> pow_overflows x = false /\ y = sqr x.
Proof.
  unfold spow2. destruct (pow_overflows x); [discriminate|].
  intros E. injection E as <-. now split.
Qed.

Lemma spow2_ok (x : A) : pow_overflows x = false -> spow2 x = Ok (sqr x).
Proof. intros O. unfold spow2. now rewrite O. Qed.

Lemma sweep_ok (ny nx : nat) (dx dy : A) (b p : grid) :
  wf ny nx p -> 2 <= ny -> 2 <= nx ->
  is_zero (two * (sqr dx + sqr dy))%sc = false ->
  squares_defined dx dy ->
  sweep dx dy b p = Ok (sweep_cells ny nx dx dy b p).
Proof.
  intros W Y X Z [Ox Oy]. unfold sweep, copy.
  rewrite spow2_ok by exact Oy. cbn [bind].
  rewrite spow2_ok by exact Ox. cbn [bind].
  rewrite sdiv_ok by exact Z. cbn [bind].
  apply pressure_bc_ok; try assumption. wf_tac.
Qed.

Lemma sweep_inv (ny nx : nat) (dx dy : A) (b p p' : grid) :
  wf ny nx p -> 2 <= ny -> 2 <= nx ->
  sweep dx dy b p = Ok p' ->
  (squares_defined dx dy /\
   is_zero (two * (sqr dx + sqr dy))%sc = false) /\
  p' = sweep_cells ny nx dx dy b p.
Proof.
  intros W Y X E. pose proof E as E0. unfold sweep in E0.
  apply bind_inv in E0 as (dy2 & Ey & E0). apply spow2_inv in Ey as [Oy ->].
  apply bind_inv in E0 as (dx2 & Ex & E0). apply spow2_inv in Ex as [Ox ->].
  apply bind_inv in E0 as (c & Ec & _). apply sdiv_inv in Ec as [Z _].
  assert (S : squares_defined dx dy) by now split.
  split; [now split|].
  rewrite sweep_ok with (ny := ny) (nx := nx) in E by assumption.
  now injection E.
Qed.

Lemma sweep_wf (ny nx : nat) (dx dy : A) (b p p' : grid) :
  wf ny nx p -> sweep dx dy b p = Ok p' -> wf ny nx p'.
Proof.
  intros W E. unfold sweep in E.
  do 3 (apply bind_inv in E as (? & _ & E)).
  eapply pressure_bc_wf; [|exact E]. wf_tac.
Qed.

Lemma sweeps_wf (n : nat) (ny nx : nat) (dx dy : A) (b p p' : grid) :
  wf ny nx p -> sweeps n dx dy b p = Ok p' -> wf ny nx p'.
Proof.
  revert p; induction n as [|n IH]; intros p W E; simpl in E.
  - now injection E as <-.
  - apply bind_inv in E as (q & E1 & E2).
    apply (IH q); [|exact E2]. eapply sweep_wf; eassumption.
Qed.

Lemma sweeps_ok (n : nat) (ny nx : nat) (dx dy : A) (b p : grid) :
  wf ny nx p -> 2 <= ny -> 2 <= nx ->
  is_zero (two * (sqr dx + sqr dy))%sc = false ->
  squares_defined dx dy ->
  exists p', sweeps n dx dy b p = Ok p' /\ wf ny nx p'.
Proof.
  intros W Y X Z S. revert p W; induction n as [|n IH]; intros p W; simpl.
  - now exists p.
  - rewrite sweep_ok with (ny := ny) (nx := nx) by assumption. simpl.
    apply IH. now apply wf_sweep_cells.
Qed.

(** ** One timestep *)

Lemma build_up_b_inv (b b' : grid) (rho dt : A) (u v : grid) (dx dy : A) :
  build_up_b b rho dt u v dx dy = Ok b' ->
  is_zero dt = false /\
  b' = set_interior b (source_cell rho (one / dt)%sc dx dy u v).
Proof.
  unfold build_up_b. intros E.
  apply bind_inv in E as (c & E1 & E2).
  apply sdiv_inv in E1 as [Z ->]. injection E2 as <-. now split.
Qed.

Lemma build_up_b_ok (b : grid) (rho dt : A) (u v : grid) (dx dy : A) :
  is_zero dt = false ->
  build_up_b b rho dt u v dx dy =
  Ok (set_interior b (source_cell rho (one / dt)%sc dx dy u v)).
Proof. intros Z. unfold build_up_b. now rewrite sdiv_ok by exact Z. Qed.

Lemma pressure_poisson_wf (ny nx : nat) (pn0 : grid) (nit : Z)
  (p p' : grid) (dx dy : A) (b : grid) :
  wf ny nx p -> pressure_poisson pn0 nit p dx dy b = Ok p' -> wf ny nx p'.
Proof. unfold pressure_poisson. apply sweeps_wf. Qed.

Lemma timestep_inv (ny nx : nat) (pn0 : grid) (nit : Z)
  (dt dx dy rho nu : A) (s s' : fields) :
  wf ny nx (f_u s) -> wf ny nx (f_v s) -> 1 <= ny -> 1 <= nx ->
  timestep pn0 nit dt dx dy rho nu s = Ok s' ->
  exists b p,
    build_up_b (f_b s) rho dt (f_u s) (f_v s) dx dy = Ok b /\
    pressure_poisson pn0 nit (f_p s) dx dy b = Ok p /\
    s' = timestep_cells ny nx dt dx dy rho nu s p b.
Proof.
  intros U V Y X E. unfold timestep, copy in E.
  apply bind_inv in E as (b & Eb & E).
  apply bind_inv in E as (p & Ep & E).
  apply bind_inv in E as (gx & Egx & E). apply sdiv_inv in Egx as [_ ->].
  apply bind_inv in E as (dx2 & Ex & E). apply spow2_inv in Ex as [_ ->].
  apply bind_inv in E as (kx & Ekx & E). apply sdiv_inv in Ekx as [_ ->].
  apply bind_inv in E as (dy2 & Ey & E). apply spow2_inv in Ey as [_ ->].
  apply bind_inv in E as (ky & Eky & E). apply sdiv_inv in Eky as [_ ->].
  apply bind_inv in E as (gy & Egy & E). apply sdiv_inv in Egy as [_ ->].
  apply bind_inv in E as (dx2 & Ex & E). apply spow2_inv in Ex as [_ ->].
  apply bind_inv in E as (kx & Ekx & E). apply sdiv_inv in Ekx as [_ ->].
  apply bind_inv in E as (dy2 & Ey & E). apply spow2_inv in Ey as [_ ->].
  apply bind_inv in E as (ky & Eky & E). apply sdiv_inv in Eky as [_ ->].
  apply bind_inv in E as (uv & Euv & E).
  rewrite (velocity_bc_ok (ny := ny) (nx := nx)) in Euv
    by (try wf_tac; assumption).
  injection Euv as <-. injection E as <-.
  exists b, p. split; [exact Eb|]. split; [exact Ep|reflexivity].
Qed.

Lemma timestep_ok (ny nx : nat) (pn0 : grid) (nit : Z)
  (dt dx dy rho nu : A) (s : fields) :
  wf_fields ny nx s -> 2 <= ny -> 2 <= nx ->
  scalars_defined dt dx dy rho ->
  exists s', timestep pn0 nit dt dx dy rho nu s = Ok s' /\ wf_fields ny nx s'.
Proof.
  intros (U & V & P & B) Y X (S & Zt & Zd & Zgx & Zgy & Zkx & Zky).
  pose proof S as [Ox Oy].
  unfold timestep, copy.
  rewrite build_up_b_ok by exact Zt. simpl.
  set (b := set_interior _ _).
  assert (Wb : wf ny nx b) by (subst b; wf_tac).
  destruct (@sweeps_ok (Z.to_nat nit) ny nx dx dy b (f_p s) P Y X Zd S)
    as (p & Ep & Wp).
  unfold pressure_poisson, copy. rewrite Ep. cbn [bind].
  repeat (first [ rewrite sdiv_ok by assumption
                | rewrite spow2_ok by assumption ]; cbn [bind]).
  rewrite (velocity_bc_ok (ny := ny) (nx := nx)) by (try wf_tac; lia).
  simpl. eexists. split; [reflexivity|].
  unfold wf_fields; simpl.
  split; [|split; [|split]]; try assumption;
    try first [apply wf_velocity_bc_cells_u | apply wf_velocity_bc_cells_v];
    wf_tac.
Qed.

Lemma timestep_wf (ny nx : nat) (pn0 : grid) (nit : Z)
  (dt dx dy rho nu : A) (s s' : fields) :
  wf_fields ny nx s -> 1 <= ny -> 1 <= nx ->
  timestep pn0 nit dt dx dy rho nu s = Ok s' -> wf_fields ny nx s'.
Proof.
  intros (U & V & P & B) Y X E.
  destruct (timestep_inv _ _ _ _ _ _ _ _ U V Y X E) as (b & p & Eb & Ep & ->).
  apply build_up_b_inv in Eb as [_ ->].
  assert (Wp : wf ny nx p)
    by (eapply pressure_poisson_wf; [exact P | exact Ep]).
  unfold wf_fields, timestep_cells; simpl.
  split; [|split; [|split]]; try assumption;
    try first [apply wf_velocity_bc_cells_u | apply wf_velocity_bc_cells_v];
    wf_tac.
Qed.

(** ** The time loop *)

Lemma timesteps_ok (n : nat) (ny nx : nat) (pn0 : nat -> grid) (nit : Z)
  (dt dx dy rho nu : A) (s : fields) :
  wf_fields ny nx s -> 2 <= ny -> 2 <= nx ->
  scalars_defined dt dx dy rho ->
  exists s', timesteps n pn0 nit dt dx dy rho nu s = Ok s' /\
             wf_fields ny nx s'.
Proof.
  intros W Y X D. revert pn0 s W; induction n as [|n IH]; intros pn0 s W.
  - now exists s.
  - simpl.
    destruct (timestep_ok (pn0 0) nit nu W Y X D) as (s1 & E1 & W1).
    rewrite E1. simpl. now apply IH.
Qed.

(** The fields that a run of one step or more returns were left by a
    timestep. *)
Lemma timesteps_last (n : nat) (ny nx : nat) (pn0 : nat -> grid) (nit : Z)
  (dt dx dy rho nu : A) (s s' : fields) :
  wf_fields ny nx s -> 1 <= ny -> 1 <= nx -> 1 <= n ->
  timesteps n pn0 nit dt dx dy rho nu s = Ok s' ->
  exists s0 b p,
    wf_fields ny nx s0 /\ wf ny nx p /\
    s' = timestep_cells ny nx dt dx dy rho nu s0 p b.
Proof.
  intros W Y X. revert pn0 s W; induction n as [|n IH]; intros pn0 s W N E.
  - lia.
  - simpl in E. apply bind_inv in E as (s1 & E1 & E2).
    destruct n as [|n].
    + simpl in E2. injection E2 as <-.
      destruct W as (U & V & P & B).
      destruct (timestep_inv _ _ _ _ _ _ _ _ U V Y X E1)
        as (b & p & Eb & Ep & ->).
      exists s, b, p. split; [|split; [|reflexivity]].
      * unfold wf_fields. tauto.
      * eapply pressure_poisson_wf; [exact P | exact Ep].
    + apply (IH (fun k => pn0 (S k)) s1); [|lia|exact E2].
      eapply timestep_wf; eassumption.
Qed.

End Boundary.

(** ** Properties that hold for every arithmetic *)

Section Structure.

Context {A : Type} `{Scalar A}.

Local Abbreviation grid := (@grid A) (only parsing).

(** What one iteration or more return was left by an iteration that ran
    on an array of the shape of [p]. *)
Lemma sweeps_last (n : nat) (ny nx : nat) (dx dy : A) (b p p' : grid) :
  wf ny nx p -> 1 <= n -> sweeps n dx dy b p = Ok p' ->
  exists q, wf ny nx q /\ sweep dx dy b q = Ok p'.
Proof.
  revert p; induction n as [|n IH]; intros p W N E; [lia|].
  simpl in E. apply bind_inv in E as (p1 & E1 & E2).
  destruct n as [|n].
  - simpl in E2. injection E2 as <-. now exists p.
  - apply (IH p1); [|lia|exact E2]. eapply sweep_wf; eassumption.
Qed.

Lemma sweep_agree (ny nx : nat) (dx dy : A) (b1 b2 p : grid) :
  wf ny nx p -> agree_inside ny nx b1 b2 ->
  sweep dx dy b1 p = sweep dx dy b2 p.
Proof.
  intros W E. unfold sweep.
  destruct (spow2 dy) as [dy2|e]; cbn [bind]; [|reflexivity].
  destruct (spow2 dx) as [dx2|e]; cbn [bind]; [|reflexivity].
  destruct (sdiv _ _) as [c|e]; cbn [bind]; [|reflexivity].
  f_equal. apply set_interior_ext with (ny := ny) (nx := nx); [exact W|].
  intros i j I. unfold jacobi_cell. now rewrite (E i j I).
Qed.

Lemma timesteps_garbage (n : nat) (pn0 pn0' : nat -> grid) (nit : Z)
  (dt dx dy rho nu : A) (s : fields) :
  timesteps n pn0 nit dt dx dy rho nu s =
  timesteps n pn0' nit dt dx dy rho nu s.
Proof.
  revert pn0 pn0' s; induction n as [|n IH]; intros pn0 pn0' s; simpl.
  - reflexivity.
  - change (timestep (pn0 0) nit dt dx dy rho nu s)
      with (timestep (pn0' 0) nit dt dx dy rho nu s).
    destruct (timestep _ _ _ _ _ _ _ s) as [s1|e]; simpl; [|reflexivity].
    apply IH.
Qed.

(** Nothing is checked before the time loop: with squares that do not
    overflow and divisors that are not zero the run returns, whatever their
    sign and whatever [nit] and [nt]. *)
Lemma cavity_flow_returns (un0 vn0 : grid) (pn0 : nat -> grid)
  (ny nx : nat) (nit nt : Z) (u v : grid) (dt dx dy : A) (p : grid)
  (rho nu : A) :
  wf ny nx u -> wf ny nx v -> wf ny nx p -> 2 <= ny -> 2 <= nx ->
  scalars_defined dt dx dy rho ->
  exists u' v' p',
    cavity_flow un0 vn0 pn0 ny nx nit nt u v dt dx dy p rho nu =
    Ok (u', v', p').
Proof.
  intros U V P Y X D. unfold cavity_flow.
  assert (W : wf_fields ny nx (Fields u v p (zeros ny nx))).
  { unfold wf_fields; simpl. split; [|split; [|split]]; try assumption.
    apply wf_zeros. }
  destruct (timesteps_ok (Z.to_nat nt) pn0 nit nu W Y X D) as (s' & E & _).
  rewrite E. simpl. now exists (f_u s'), (f_v s'), (f_p s').
Qed.


(** C4, amended: after every timestep the lid row of [u] holds 1 from end
    to end, the first row of [u] holds 0, the first and last columns of [u]
    hold 0 on every row but the lid row, and [v] holds 0 on its four
    edges. *)
Theorem velocity_bc_after_every_timestep (un0 vn0 : grid)
  (pn0 : nat -> grid) (ny nx : nat) (nit nt : Z) (u v : grid)
  (dt dx dy : A) (p : grid) (rho nu : A) (u' v' p' : grid) :
  wf ny nx u -> wf ny nx v -> wf ny nx p -> 2 <= ny -> 1 <= nx ->
  (1 <= nt)%Z ->
  cavity_flow un0 vn0 pn0 ny nx nit nt u v dt dx dy p rho nu =
    Ok (u', v', p') ->
  velocity_bc_lid ny nx u' v'.
Proof.
  intros U V P Y X N E. unfold cavity_flow in E.
  apply bind_inv in E as (s' & E & R). injection R as <- <- <-.
  assert (W : wf_fields ny nx (Fields u v p (zeros ny nx))).
  { unfold wf_fields; simpl. split; [|split; [|split]]; try assumption.
    apply wf_zeros. }
  apply timesteps_last with (ny := ny) (nx := nx) in E;
    [|exact W|lia|lia|lia].
  destruct E as (s0 & b & q & (U0 & V0 & _) & _ & ->).
  unfold timestep_cells; simpl.
  apply velocity_bc_cells_lid; try lia; unfold u_interior, v_interior;
    wf_tac.
Qed.

(** C5: after every Jacobi sweep of [pressure_poisson] on a grid of three
    rows and columns or more, [p[-1,:] == 0], [p[:,-1] == p[:,-2]],
    [p[0,:] == p[1,:]] and [p[:,0] == p[:,1]] hold together. *)
Theorem pressure_bc_after_every_sweep (k : nat) (ny nx : nat) (dx dy : A)
  (b p p' : grid) :
  wf ny nx p -> 3 <= ny -> 3 <= nx -> 1 <= k ->
  sweeps k dx dy b p = Ok p' ->
  pressure_bc_holds ny nx p'.
Proof.
  intros W Y X K E.
  destruct (@sweeps_last k ny nx dx dy b p p' W K E) as (q & Wq & Eq).
  apply sweep_inv with (ny := ny) (nx := nx) in Eq as [_ ->];
    try assumption; try lia.
  unfold sweep_cells. apply pressure_bc_cells_holds; try assumption.
  wf_tac.
Qed.

(** C8: two source arrays that agree on the slice [[1:-1, 1:-1]] give the
    same pressure, whatever their boundary cells hold. *)
Theorem pressure_poisson_ignores_b_boundary (ny nx : nat) (pn0 : grid)
  (nit : Z) (p : grid) (dx dy : A) (b1 b2 : grid) :
  wf ny nx p -> agree_inside ny nx b1 b2 ->
  pressure_poisson pn0 nit p dx dy b1 = pressure_poisson pn0 nit p dx dy b2.
Proof.
  intros W E. unfold pressure_poisson, copy.
  generalize (Z.to_nat nit) as n. intros n.
  revert p W; induction n as [|n IH]; intros p W; simpl; [reflexivity|].
  rewrite sweep_agree with (ny := ny) (nx := nx) (b2 := b2)
    by assumption.
  destruct (sweep dx dy b2 p) as [q|e] eqn:S; simpl; [|reflexivity].
  apply IH. eapply sweep_wf; eassumption.
Qed.

(** C9: the fields returned depend on the inputs alone, not on what the
    arrays of [np.empty_like] held. *)
Theorem cavity_flow_deterministic (un0 vn0 un0' vn0' : grid)
  (pn0 pn0' : nat -> grid) (ny nx : nat) (nit nt : Z) (u v : grid)
  (dt dx dy : A) (p : grid) (rho nu : A) :
  cavity_flow un0 vn0 pn0 ny nx nit nt u v dt dx dy p rho nu =
  cavity_flow un0' vn0' pn0' ny nx nit nt u v dt dx dy p rho nu.
Proof.
  unfold cavity_flow.
  now rewrite (timesteps_garbage (Z.to_nat nt) pn0 pn0').
Qed.

(** C10: with [nt = 0] the fields come back as they were passed; no
    boundary condition is imposed on them. *)
Theorem cavity_flow_zero_steps (un0 vn0 : grid) (pn0 : nat -> grid)
  (ny nx : nat) (nit : Z) (u v : grid) (dt dx dy : A) (p : grid)
  (rho nu : A) :
  cavity_flow un0 vn0 pn0 ny nx nit 0 u v dt dx dy p rho nu = Ok (u, v, p).
Proof. reflexivity. Qed.

End Structure.

(** ** The formulas of the specification, over the real numbers *)

Section Shapes.

Context {A : Type} `{Scalar A}.

Local Abbreviation grid := (@grid A) (only parsing).

Lemma boundary_spec_cells (ny nx : nat) (p : grid) :
  wf ny nx p -> 1 <= ny -> boundary_spec p = pressure_bc_cells ny nx p.
Proof.
  intros W Y. unfold boundary_spec, pressure_bc_cells.
  now rewrite (wf_nrows W), (wf_ncols W Y).
Qed.

(** Boundary assignments that return ran on an array with a first row and
    a first column. *)
Lemma velocity_bc_sizes (ny nx : nat) (u v : grid) (uv : grid * grid) :
  wf ny nx u -> velocity_bc u v = Ok uv -> 1 <= ny /\ 1 <= nx.
Proof.
  intros W E. unfold velocity_bc in E.
  apply bind_inv in E as (u1 & E1 & E).
  apply bind_inv in E as (u2 & E2 & _).
  apply row_assign_inv in E1 as [I1 ->].
  apply col_assign_inv in E2 as [I2 _].
  rewrite (wf_nrows W) in I1.
  assert (Y : 1 <= ny).
  { unfold index_ok in I1. apply andb_true_iff in I1 as [_ I1].
    apply Z.ltb_lt in I1. lia. }
  split; [exact Y|].
  rewrite (wf_ncols (wf_set_row _ _ W) Y) in I2.
  unfold index_ok in I2. apply andb_true_iff in I2 as [_ I2].
  apply Z.ltb_lt in I2. lia.
Qed.

Lemma interior_bounds (ny nx i j : nat) :
  interior ny nx i j = true -> 1 <= i /\ i + 1 < ny /\ 1 <= j /\ j + 1 < nx.
Proof.
  unfold interior. intros I.
  apply andb_true_iff in I as [I J2].
  apply andb_true_iff in I as [I J1].
  apply andb_true_iff in I as [I1 I2].
  apply Nat.leb_le in I1, J1. apply Nat.ltb_lt in I2, J2. lia.
Qed.

End Shapes.

Section Reals.

Local Abbreviation grid := (@grid R) (only parsing).

Lemma is_zero_R (x : R) : x <> 0%R -> is_zero x = false.
Proof.
  intros N. simpl. destruct (Req_dec_T x 0%R) as [E|_]; [contradiction|].
  reflexivity.
Qed.

Lemma divisors_nonzero_R (dt dx dy rho : R) :
  dt <> 0%R -> dx <> 0%R -> dy <> 0%R -> rho <> 0%R ->
  divisors_nonzero dt dx dy rho.
Proof.
  intros Nt Nx Ny Nr.
  assert (Px : (0 < dx * dx)%R) by nra.
  assert (Py : (0 < dy * dy)%R) by nra.
  unfold divisors_nonzero.
  repeat split; apply is_zero_R; simpl; try assumption; nra.
Qed.

(** No square of a real number overflows. *)
Lemma scalars_defined_R (dt dx dy rho : R) :
  dt <> 0%R -> dx <> 0%R -> dy <> 0%R -> rho <> 0%R ->
  scalars_defined dt dx dy rho.
Proof.
  intros Nt Nx Ny Nr. split; [split; reflexivity|].
  now apply divisors_nonzero_R.
Qed.

(** The code subtracts [coef * b] from the quotient; the specification
    subtracts in the numerator. *)
Lemma jacobi_cell_R (dx dy : R) (b p : grid) (i j : nat) :
  jacobi_cell dx dy (sqr dx * sqr dy / (two * (sqr dx + sqr dy)))%sc b p i j
  = jacobi_cell_spec dx dy b p i j.
Proof.
  unfold jacobi_cell, jacobi_cell_spec. simpl. unfold Rdiv. ring.
Qed.

Lemma source_cell_R (rho dt dx dy : R) (u v : grid) (i j : nat) :
  source_cell rho (one / dt)%sc dx dy u v i j =
  source_term_spec rho dt dx dy u v i j.
Proof.
  unfold source_cell, source_term_spec, ddx, ddy. simpl. unfold Rdiv. ring.
Qed.

Lemma u_cell_R (dt dx dy rho nu : R) (un vn p : grid) (i j : nat) :
  u_cell dt dx dy (dt / (two * rho * dx))%sc (dt / sqr dx)%sc
    (dt / sqr dy)%sc nu un vn p i j =
  u_update_spec dt dx dy rho nu un vn p i j.
Proof.
  unfold u_cell, u_update_spec. simpl. unfold Rdiv. ring.
Qed.

Lemma v_cell_R (dt dx dy rho nu : R) (un vn p : grid) (i j : nat) :
  v_cell dt dx dy (dt / (two * rho * dy))%sc (dt / sqr dx)%sc
    (dt / sqr dy)%sc nu un vn p i j =
  v_update_spec dt dx dy rho nu un vn p i j.
Proof.
  unfold v_cell, v_update_spec. simpl. unfold Rdiv. ring.
Qed.

Lemma sweep_is_jacobi_sweep_spec (ny nx : nat) (dx dy : R) (b p : grid) :
  wf ny nx p -> 2 <= ny -> 2 <= nx -> (0 < dx)%R -> (0 < dy)%R ->
  sweep dx dy b p = Ok (jacobi_sweep_spec dx dy b p) /\
  wf ny nx (jacobi_sweep_spec dx dy b p).
Proof.
  intros W Y X Px Py.
  assert (D : divisors_nonzero 1%R dx dy 1%R)
    by (apply divisors_nonzero_R; lra).
  destruct D as (_ & Zd & _).
  rewrite sweep_ok with (ny := ny) (nx := nx)
    by (try assumption; split; reflexivity).
  assert (E : jacobi_sweep_spec dx dy b p = sweep_cells ny nx dx dy b p).
  { unfold jacobi_sweep_spec, sweep_cells.
    rewrite boundary_spec_cells with (ny := ny) (nx := nx)
      by (try wf_tac; lia).
    f_equal. apply set_interior_ext with (ny := ny) (nx := nx); [exact W|].
    intros i j _. symmetry. apply jacobi_cell_R. }
  rewrite E. split; [reflexivity|]. now apply wf_sweep_cells.
Qed.

(** C1: [pressure_poisson] returns [p] after exactly [nit] sweeps, each
    one the interior formula of the specification on the snapshot followed
    by the four boundary assignments. *)
Theorem pressure_poisson_is_nit_jacobi_sweeps (ny nx : nat) (pn0 : grid)
  (nit : Z) (p : grid) (dx dy : R) (b : grid) :
  wf ny nx p -> wf ny nx b -> 3 <= ny -> 3 <= nx ->
  (0 < dx)%R -> (0 < dy)%R -> (0 <= nit)%Z ->
  pressure_poisson pn0 nit p dx dy b =
  Ok (Nat.iter (Z.to_nat nit) (jacobi_sweep_spec dx dy b) p).
Proof.
  intros W _ Y X Px Py _. unfold pressure_poisson, copy.
  generalize (Z.to_nat nit) as n. intros n.
  revert p W; induction n as [|n IH]; intros p W; [reflexivity|].
  cbn [sweeps].
  destruct (@sweep_is_jacobi_sweep_spec ny nx dx dy b p) as [E W'];
    try assumption; try lia.
  rewrite E. cbn [bind]. rewrite IH by exact W'.
  now rewrite Nat.iter_succ_r.
Qed.

(** C2: [build_up_b] writes the discretized source term in every interior
    cell of [b] and leaves every other cell as it was. *)
Theorem build_up_b_writes_interior_only (ny nx : nat) (b : grid)
  (rho dt : R) (u v : grid) (dx dy : R) :
  wf ny nx b -> wf ny nx u -> wf ny nx v -> 3 <= ny -> 3 <= nx ->
  (0 < dt)%R -> (0 < dx)%R -> (0 < dy)%R ->
  exists b',
    build_up_b b rho dt u v dx dy = Ok b' /\
    wf ny nx b' /\
    (forall i j, interior ny nx i j = true ->
       get b' i j = source_term_spec rho dt dx dy u v i j) /\
    (forall i j, interior ny nx i j = false -> get b' i j = get b i j).
Proof.
  intros B _ _ Y X Pt Px Py.
  rewrite build_up_b_ok by (apply is_zero_R; lra).
  eexists. split; [reflexivity|]. split; [wf_tac|]. split.
  - intros i j I. rewrite get_set_interior with (ny := ny) (nx := nx)
      by exact B.
    rewrite I. apply source_cell_R.
  - intros i j I. rewrite get_set_interior with (ny := ny) (nx := nx)
      by exact B.
    now rewrite I.
Qed.

(** C3: a timestep computes the new interior of [u] and of [v] from the
    fields as they were when the step began and from the pressure of the
    step, by the formulas of the specification. *)
Theorem timestep_updates_from_snapshots (ny nx : nat) (pn0 : grid)
  (nit : Z) (dt dx dy rho nu : R) (s s' : fields) :
  wf ny nx (f_u s) -> wf ny nx (f_v s) ->
  timestep pn0 nit dt dx dy rho nu s = Ok s' ->
  let un := copy (f_u s) in
  let vn := copy (f_v s) in
  exists b,
    build_up_b (f_b s) rho dt (f_u s) (f_v s) dx dy = Ok b /\
    pressure_poisson pn0 nit (f_p s) dx dy b = Ok (f_p s') /\
    forall i j, interior ny nx i j = true ->
      get (f_u s') i j = u_update_spec dt dx dy rho nu un vn (f_p s') i j /\
      get (f_v s') i j = v_update_spec dt dx dy rho nu un vn (f_p s') i j.
Proof.
  intros U V E un vn. subst un vn. unfold copy.
  assert (S : 1 <= ny /\ 1 <= nx).
  { unfold timestep in E.
    do 12 (apply bind_inv in E as (? & _ & E)).
    apply bind_inv in E as (uv & E & _).
    eapply (@velocity_bc_sizes R Scalar_R); [|exact E]. wf_tac. }
  destruct S as [Y X].
  destruct (@timestep_inv R _ ny nx pn0 nit dt dx dy rho nu s s' U V Y X E)
    as (b & p & Eb & Ep & ->).
  exists b. split; [exact Eb|]. split; [exact Ep|].
  intros i j I. unfold timestep_cells; cbn [f_u f_v f_p].
  destruct (@velocity_bc_cells_interior R _ ny nx
              (u_interior dt dx dy rho nu (f_u s) (f_v s) p)
              (v_interior dt dx dy rho nu (f_u s) (f_v s) p) i j)
    as [Eu Ev]; try exact I; try (unfold u_interior, v_interior; wf_tac).
  rewrite Eu, Ev. unfold u_interior, v_interior.
  rewrite !get_set_interior with (ny := ny) (nx := nx) by assumption.
  rewrite I. split; [apply u_cell_R | apply v_cell_R].
Qed.

(** C6: with a source term that is zero everywhere, a uniform pressure
    that satisfies the boundary conditions is left as it is by a sweep. *)
Theorem zero_source_fixed_point (ny nx : nat) (dx dy : R) (b p : grid) :
  wf ny nx p -> 3 <= ny -> 3 <= nx -> (0 < dx)%R -> (0 < dy)%R ->
  (forall i j, get b i j = 0%R) ->
  uniform ny nx p -> pressure_bc_holds ny nx p ->
  sweep dx dy b p = Ok p.
Proof.
  intros W Y X Px Py Zb Up (Last & _).
  assert (Zp : forall i j, i < ny -> j < nx -> get p i j = 0%R).
  { intros i j Hi Hj. rewrite (Up i j (ny - 1) 0) by lia.
    apply Last. lia. }
  destruct (@sweep_is_jacobi_sweep_spec ny nx dx dy b p) as [E W'];
    try assumption; try lia.
  rewrite E. f_equal.
  apply grid_ext with (ny := ny) (nx := nx); try assumption.
  intros i j Hi Hj. unfold jacobi_sweep_spec.
  rewrite boundary_spec_cells with (ny := ny) (nx := nx)
    by (try wf_tac; lia).
  assert (C : forall a c, get (set_interior p (jacobi_cell_spec dx dy b p)) a c
                          = get p a c).
  { intros a c.
    rewrite get_set_interior with (ny := ny) (nx := nx) by exact W.
    destruct (interior ny nx a c) eqn:I; [|reflexivity].
    apply interior_bounds in I.
    unfold jacobi_cell_spec.
    rewrite (Zb a c), !Zp by lia. simpl. unfold Rdiv. ring. }
  unfold pressure_bc_cells.
  repeat first
    [ rewrite get_set_row with (ny := ny) (nx := nx) by wf_tac
    | rewrite get_set_col with (ny := ny) (nx := nx) by wf_tac
    | progress cbv beta ].
  rewrite !C.
  split_tests; rewrite ?Zp by lia; reflexivity.
Qed.

End Reals.

(** ** Concrete runs *)

(** The shape of an array written out cell by cell. *)
Ltac wf_literal := split; [reflexivity | repeat constructor].

Lemma get_zeros3_R (i j : nat) : get zeros3_R i j = 0%R.
Proof.
  unfold get, zeros3_R.
  destruct i as [|[|[|[|i]]]]; destruct j as [|[|[|[|j]]]]; reflexivity.
Qed.

Lemma agree_inside_src3 : agree_inside 3 3 src3_Q src3_other_Q.
Proof.
  intros i j I. apply interior_bounds in I.
  assert (Ei : i = 1) by lia. assert (Ej : j = 1) by lia.
  subst i j. reflexivity.
Qed.

(** One timestep on the ramp, [dt = dx = dy = rho = nu = 1], one sweep:
    the source term of the interior cell is -12, the pressure is 8 above
    the Dirichlet row, the interior velocities are -15 and -11. *)
Example cavity_flow_ramp :
  cavity_flow [] [] (fun _ => []) 3 3 1 1 ramp3_Q ramp3_Q 1%Q 1%Q 1%Q
    ramp3_Q 1%Q 1%Q =
  Ok ([[0; 0; 0]; [0; -15; 0]; [1; 1; 1]]%Q,
      [[0; 0; 0]; [0; -11; 0]; [0; 0; 0]]%Q,
      [[8; 8; 8]; [8; 8; 8]; [0; 0; 0]]%Q).
Proof. vm_compute. reflexivity. Qed.

(** A zero [dt] is found by the division of the first timestep, inside
    the loop; with no timestep it is not found at all. *)
Example zero_dt_raises_in_the_loop :
  cavity_flow [] [] (fun _ => []) 3 3 1 1 zeros3_Q zeros3_Q 0%Q 1%Q 1%Q
    zeros3_Q 1%Q 1%Q = Raise ZeroDivisionError /\
  cavity_flow [] [] (fun _ => []) 3 3 1 0 zeros3_Q zeros3_Q 0%Q 1%Q 1%Q
    zeros3_Q 1%Q 1%Q = Ok (zeros3_Q, zeros3_Q, zeros3_Q).
Proof. split; vm_compute; reflexivity. Qed.

(** On one cell [p[:, -2]] is out of range. *)
Example one_cell_grid_raises :
  cavity_flow [] [] (fun _ => []) 1 1 1 1 [[5%Q]] [[5%Q]] 1%Q 1%Q 1%Q
    [[5%Q]] 1%Q 1%Q = Raise IndexError.
Proof. vm_compute. reflexivity. Qed.

(** With [nt = 0] the lid keeps the zeros it was passed. *)
Example lid_not_imposed_without_timestep :
  exists u' v' p',
    cavity_flow [] [] (fun _ => []) 3 3 1 0 zeros3_Q zeros3_Q 1%Q 1%Q 1%Q
      zeros3_Q 1%Q 1%Q = Ok (u', v', p') /\
    get u' 2 1 = 0%Q /\ get u' 2 1 <> 1%Q.
Proof.
  exists zeros3_Q, zeros3_Q, zeros3_Q.
  split; [reflexivity|]. split; [reflexivity|]. discriminate.
Qed.

(** *** C1 *)

Lemma pressure_poisson_is_nit_jacobi_sweeps_witness :
  pressure_poisson [] 2 ramp3_R 1%R 1%R src3_R =
  Ok (Nat.iter 2 (jacobi_sweep_spec 1%R 1%R src3_R) ramp3_R).
Proof.
  apply (@pressure_poisson_is_nit_jacobi_sweeps 3 3);
    try wf_literal; try lia; lra.
Defined.

(** *** C2 *)

Lemma build_up_b_writes_interior_only_witness :
  exists b',
    build_up_b zeros3_R 1%R 1%R ramp3_R ramp3_R 1%R 1%R = Ok b' /\
    wf 3 3 b' /\
    (forall i j, interior 3 3 i j = true ->
       get b' i j = source_term_spec 1%R 1%R 1%R 1%R ramp3_R ramp3_R i j) /\
    (forall i j, interior 3 3 i j = false -> get b' i j = get zeros3_R i j).
Proof.
  apply (@build_up_b_writes_interior_only 3 3);
    try wf_literal; try lia; lra.
Defined.

(** *** C3 *)

Lemma timestep_updates_from_snapshots_witness :
  let s := Fields ramp3_R ramp3_R ramp3_R zeros3_R in
  exists s',
    timestep [] 1 1%R 1%R 1%R 1%R 1%R s = Ok s' /\
    exists b,
      build_up_b zeros3_R 1%R 1%R ramp3_R ramp3_R 1%R 1%R = Ok b /\
      pressure_poisson [] 1 ramp3_R 1%R 1%R b = Ok (f_p s') /\
      forall i j, interior 3 3 i j = true ->
        get (f_u s') i j =
          u_update_spec 1%R 1%R 1%R 1%R 1%R ramp3_R ramp3_R (f_p s') i j /\
        get (f_v s') i j =
          v_update_spec 1%R 1%R 1%R 1%R 1%R ramp3_R ramp3_R (f_p s') i j.
Proof.
  intros s.
  assert (W : wf_fields 3 3 s)
    by (unfold wf_fields; simpl; repeat split; repeat constructor).
  assert (D : scalars_defined 1%R 1%R 1%R 1%R)
    by (apply scalars_defined_R; lra).
  destruct (@timestep_ok R _ 3 3 [] 1%Z 1%R 1%R 1%R 1%R 1%R s W
              (le_S _ _ (le_n 2)) (le_S _ _ (le_n 2)) D) as (s' & E & _).
  exists s'. split; [exact E|].
  apply (@timestep_updates_from_snapshots 3 3 [] 1%Z 1%R 1%R 1%R 1%R 1%R
           s s'); try wf_literal. exact E.
Defined.

(** *** C4 *)

(** The claim with every edge complete fails at the two ends of the lid
    row: [u[-1, 0]] and [u[-1, -1]] hold 1, not 0. *)
Lemma velocity_bc_full_fails_at_lid_corners :
  cavity_flow [] [] (fun _ => []) 3 3 1 1 ramp3_Q ramp3_Q 1%Q 1%Q 1%Q
    ramp3_Q 1%Q 1%Q =
  Ok ([[0; 0; 0]; [0; -15; 0]; [1; 1; 1]]%Q,
      [[0; 0; 0]; [0; -11; 0]; [0; 0; 0]]%Q,
      [[8; 8; 8]; [8; 8; 8]; [0; 0; 0]]%Q) /\
  ~ velocity_bc_full 3 3 [[0; 0; 0]; [0; -15; 0]; [1; 1; 1]]%Q
                         [[0; 0; 0]; [0; -11; 0]; [0; 0; 0]]%Q.
Proof.
  split; [vm_compute; reflexivity|].
  intros (_ & _ & Left & _).
  specialize (Left 2 (le_n 3)). vm_compute in Left. discriminate.
Qed.

Lemma velocity_bc_after_every_timestep_witness :
  velocity_bc_lid 3 3 [[0; 0; 0]; [0; -15; 0]; [1; 1; 1]]%Q
                      [[0; 0; 0]; [0; -11; 0]; [0; 0; 0]]%Q.
Proof.
  apply (@velocity_bc_after_every_timestep Q _ [] [] (fun _ => []) 3 3
           1%Z 1%Z ramp3_Q ramp3_Q 1%Q 1%Q 1%Q ramp3_Q 1%Q 1%Q
           _ _ [[8; 8; 8]; [8; 8; 8]; [0; 0; 0]]%Q);
    try wf_literal; try lia.
  vm_compute. reflexivity.
Defined.

(** *** C5 *)

Lemma pressure_bc_after_every_sweep_witness :
  pressure_bc_holds 3 3
    [[23 # 8; 23 # 8; 23 # 8]; [23 # 8; 23 # 8; 23 # 8]; [0; 0; 0]]%Q.
Proof.
  apply (@pressure_bc_after_every_sweep Q _ 2 3 3 1%Q 1%Q src3_Q ramp3_Q);
    try wf_literal; try lia.
  vm_compute. reflexivity.
Defined.

(** *** C6 *)

Lemma zero_source_fixed_point_witness :
  sweep 1%R 1%R zeros3_R zeros3_R = Ok zeros3_R.
Proof.
  apply (@zero_source_fixed_point 3 3);
    try wf_literal; try lia; try lra.
  - apply get_zeros3_R.
  - intros i j i' j' _ _ _ _. now rewrite !get_zeros3_R.
  - repeat split; intros k _; now rewrite !get_zeros3_R.
Defined.

(** *** C7 *)



(** Out of the range of a float: with [dx = 1e200] the first [dx ** 2], in
    [pressure_poisson], raises [OverflowError]; with [dx = 1e-200],
    [dx ** 2] is zero and [dt / dx**2] raises [ZeroDivisionError], although
    [dx] is not zero. *)
Example cavity_flow_spacing_overflows :
  @cavity_flow Q Scalar_Q_range [] [] (fun _ => []) 3 3 1 1 zeros3_Q
    zeros3_Q 1%Q (inject_Z (10 ^ 200)) 1%Q zeros3_Q 1%Q 1%Q =
  Raise OverflowError.
Proof. vm_compute. reflexivity. Qed.

Example cavity_flow_spacing_underflows :
  @cavity_flow Q Scalar_Q_range [] [] (fun _ => []) 3 3 1 1 zeros3_Q
    zeros3_Q 1%Q (1 # 10 ^ 200)%Q 1%Q zeros3_Q 1%Q 1%Q =
  Raise ZeroDivisionError.
Proof. vm_compute. reflexivity. Qed.

(** *** C8 *)

Lemma pressure_poisson_ignores_b_boundary_witness :
  pressure_poisson [] 2 ramp3_Q 1%Q 1%Q src3_Q =
  pressure_poisson [] 2 ramp3_Q 1%Q 1%Q src3_other_Q.
Proof.
  apply (@pressure_poisson_ignores_b_boundary Q _ 3 3).
  - wf_literal.
  - exact agree_inside_src3.
Defined.

(** ** Further properties of the solver, for every arithmetic *)

Section Further.

Context {A : Type} `{Scalar A}.

Local Abbreviation grid := (@grid A) (only parsing).

Lemma bind_assoc {X Y Z : Type} (c : result X) (f : X -> result Y)
  (g : Y -> result Z) :
  bind (bind c f) g = bind c (fun x => bind (f x) g).
Proof. now destruct c. Qed.

Lemma index_ok_small (n : nat) (k : Z) :
  (k < - Z.of_nat n \/ Z.of_nat n <= k)%Z -> index_ok n k = false.
Proof.
  intros K. unfold index_ok. apply andb_false_iff.
  destruct K as [K|K]; [left; apply Z.leb_gt | right; apply Z.ltb_ge]; lia.
Qed.

(** *** Shapes *)

Lemma timestep_sizes (ny nx : nat) (pn0 : grid) (nit : Z)
  (dt dx dy rho nu : A) (s s' : fields) :
  wf ny nx (f_u s) -> timestep pn0 nit dt dx dy rho nu s = Ok s' ->
  1 <= ny /\ 1 <= nx.
Proof.
  intros U E. unfold timestep in E.
  do 12 (apply bind_inv in E as (? & _ & E)).
  apply bind_inv in E as (uv & E & _).
  eapply velocity_bc_sizes; [|exact E]. wf_tac.
Qed.

Lemma timesteps_wf (n : nat) (ny nx : nat) (pn0 : nat -> grid) (nit : Z)
  (dt dx dy rho nu : A) (s s' : fields) :
  wf_fields ny nx s -> timesteps n pn0 nit dt dx dy rho nu s = Ok s' ->
  wf_fields ny nx s'.
Proof.
  revert pn0 s; induction n as [|n IH]; intros pn0 s W E; simpl in E.
  - now injection E as <-.
  - apply bind_inv in E as (s1 & E1 & E2).
    apply (IH (fun k => pn0 (S k)) s1); [|exact E2].
    destruct W as (U & V & P & B).
    destruct (timestep_sizes _ _ _ _ _ _ _ _ U E1) as [Y X].
    eapply timestep_wf; try eassumption.
    unfold wf_fields. tauto.
Qed.

(** X2: [build_up_b] and [pressure_poisson] return an array of the shape of
    the array they were given to write. *)
Theorem kernels_preserve_shape (ny nx : nat) (pn0 : grid) (nit : Z)
  (b b' p p' u v : grid) (rho dt dx dy : A) :
  wf ny nx b -> wf ny nx p ->
  build_up_b b rho dt u v dx dy = Ok b' ->
  pressure_poisson pn0 nit p dx dy b' = Ok p' ->
  wf ny nx b' /\ wf ny nx p'.
Proof.
  intros B P Eb Ep. split.
  - apply build_up_b_inv in Eb as [_ ->]. wf_tac.
  - unfold pressure_poisson in Ep. eapply sweeps_wf; eassumption.
Qed.

(** X1: The fields that [cavity_flow] returns have the shape of the fields it
    was passed. *)
Theorem cavity_flow_preserves_shape (un0 vn0 : grid) (pn0 : nat -> grid)
  (ny nx : nat) (nit nt : Z) (u v : grid) (dt dx dy : A) (p : grid)
  (rho nu : A) (u' v' p' : grid) :
  wf ny nx u -> wf ny nx v -> wf ny nx p ->
  cavity_flow un0 vn0 pn0 ny nx nit nt u v dt dx dy p rho nu =
    Ok (u', v', p') ->
  wf ny nx u' /\ wf ny nx v' /\ wf ny nx p'.
Proof.
  intros U V P E. unfold cavity_flow in E.
  apply bind_inv in E as (s' & E & R). injection R as <- <- <-.
  assert (W : wf_fields ny nx (Fields u v p (zeros ny nx))).
  { unfold wf_fields; simpl. split; [|split; [|split]]; try assumption.
    apply wf_zeros. }
  destruct (timesteps_wf _ _ _ _ _ _ _ _ W E) as (U' & V' & P' & _).
  now split; [|split].
Qed.

(** *** Empty loops *)

(** X3: With [nit <= 0] [pressure_poisson] performs no sweep: it returns [p]
    as it is, divides by nothing and indexes nothing. *)
Theorem pressure_poisson_no_sweep (pn0 : grid) (nit : Z) (p : grid)
  (dx dy : A) (b : grid) :
  (nit <= 0)%Z -> pressure_poisson pn0 nit p dx dy b = Ok p.
Proof.
  intros N. unfold pressure_poisson.
  replace (Z.to_nat nit) with 0 by lia. reflexivity.
Qed.

(** *** Grids too small for the boundary assignments *)

Lemma pressure_bc_small (ny nx : nat) (p : grid) :
  wf ny nx p -> ny < 2 \/ nx < 2 -> pressure_bc p = Raise IndexError.
Proof.
  intros W S. unfold pressure_bc.
  destruct (Nat.eq_dec ny 0) as [->|Y0].
  { destruct W as [L _]. destruct p; [reflexivity|discriminate]. }
  assert (Y : 1 <= ny) by lia.
  destruct (le_lt_dec 2 nx) as [X|X].
  - assert (Y1 : ny = 1) by lia. subst ny.
    rewrite (col_read_ok (-2) W) by (try apply index_ok_neg; lia). simpl.
    rewrite (col_assign_ok (-1) _ W) by (try apply index_ok_neg; lia). simpl.
    set (p1 := set_col p _ _).
    assert (W1 : wf 1 nx p1) by (subst p1; wf_tac).
    unfold row_read. rewrite (wf_nrows W1).
    rewrite index_ok_small by lia. reflexivity.
  - unfold col_read. rewrite (wf_ncols W Y).
    rewrite index_ok_small by lia. reflexivity.
Qed.

Lemma sweeps_small (n : nat) (ny nx : nat) (dx dy : A) (b p : grid) :
  wf ny nx p -> ny < 2 \/ nx < 2 -> 1 <= n ->
  squares_defined dx dy ->
  is_zero (two * (sqr dx + sqr dy))%sc = false ->
  sweeps n dx dy b p = Raise IndexError.
Proof.
  intros W S N [Ox Oy] Z. destruct n as [|n]; [lia|]. simpl.
  unfold sweep, copy.
  rewrite (spow2_ok _ Oy). cbn [bind]. rewrite (spow2_ok _ Ox). cbn [bind].
  rewrite sdiv_ok by exact Z. simpl.
  rewrite pressure_bc_small with (ny := ny) (nx := nx);
    [reflexivity | wf_tac | exact S].
Qed.

(** X4: When [dx ** 2] and [dy ** 2] do not overflow and its divisor is not
    zero, [pressure_poisson] with one sweep or more raises [IndexError]
    exactly on the grids with fewer than two rows or fewer than two
    columns: [p[:, -2]] or [p[1, :]] is out of range there. *)
Theorem pressure_poisson_index_error (ny nx : nat) (pn0 : grid) (nit : Z)
  (p : grid) (dx dy : A) (b : grid) :
  wf ny nx p -> (1 <= nit)%Z ->
  squares_defined dx dy ->
  is_zero (two * (sqr dx + sqr dy))%sc = false ->
  (pressure_poisson pn0 nit p dx dy b = Raise IndexError <->
   ny < 2 \/ nx < 2).
Proof.
  intros W N O Z. unfold pressure_poisson, copy. split.
  - intros E.
    destruct (le_lt_dec 2 ny) as [Y|Y]; [|now left].
    destruct (le_lt_dec 2 nx) as [X|X]; [|now right].
    destruct (sweeps_ok (Z.to_nat nit) b W Y X Z O) as (p' & E' & _).
    rewrite E' in E. discriminate.
  - intros S. apply sweeps_small with (ny := ny) (nx := nx);
      try assumption. lia.
Qed.

(** *** The boundary assignments and the interior *)

Lemma pressure_bc_inv (ny nx : nat) (p p' : grid) :
  wf ny nx p -> pressure_bc p = Ok p' ->
  2 <= ny /\ 2 <= nx /\ p' = pressure_bc_cells ny nx p.
Proof.
  intros W E.
  destruct (le_lt_dec 2 ny) as [Y|Y].
  - destruct (le_lt_dec 2 nx) as [X|X].
    + rewrite (pressure_bc_ok W Y X) in E. injection E as <-.
      now split; [|split].
    + rewrite pressure_bc_small with (ny := ny) (nx := nx) in E;
        [discriminate | exact W | now right].
  - rewrite pressure_bc_small with (ny := ny) (nx := nx) in E;
      [discriminate | exact W | now left].
Qed.

Lemma velocity_bc_inv (ny nx : nat) (u v u' v' : grid) :
  wf ny nx u -> wf ny nx v -> velocity_bc u v = Ok (u', v') ->
  1 <= ny /\ 1 <= nx /\ (u', v') = velocity_bc_cells ny nx u v.
Proof.
  intros U V E.
  destruct (velocity_bc_sizes _ U E) as [Y X].
  rewrite (velocity_bc_ok U V Y X) in E.
  split; [exact Y|]. split; [exact X|]. congruence.
Qed.

(** X5: The boundary assignments of [pressure_poisson] write no cell of the
    slice [[1:-1, 1:-1]]. *)
Theorem pressure_bc_leaves_interior (ny nx : nat) (p p' : grid)
  (i j : nat) :
  wf ny nx p -> pressure_bc p = Ok p' -> interior ny nx i j = true ->
  get p' i j = get p i j.
Proof.
  intros W E I. apply (pressure_bc_inv W) in E as (_ & _ & ->).
  now apply pressure_bc_cells_interior.
Qed.

(** X6: The boundary assignments of [cavity_flow] write no cell of the
    slice [[1:-1, 1:-1]] of [u] or of [v]. *)
Theorem velocity_bc_leaves_interior (ny nx : nat) (u v u' v' : grid)
  (i j : nat) :
  wf ny nx u -> wf ny nx v -> velocity_bc u v = Ok (u', v') ->
  interior ny nx i j = true ->
  get u' i j = get u i j /\ get v' i j = get v i j.
Proof.
  intros U V E I. apply (velocity_bc_inv U V) in E as (_ & _ & E).
  destruct (@velocity_bc_cells_interior A _ ny nx u v i j U V I) as [Eu Ev].
  rewrite <- E in Eu, Ev. exact (conj Eu Ev).
Qed.

(** *** Splitting the iterations *)

Lemma sweeps_add (n m : nat) (dx dy : A) (b p : grid) :
  sweeps (n + m) dx dy b p =
  bind (sweeps n dx dy b p) (sweeps m dx dy b).
Proof.
  revert p; induction n as [|n IH]; intros p; simpl; [reflexivity|].
  rewrite bind_assoc. destruct (sweep dx dy b p) as [q|e]; simpl;
    [apply IH | reflexivity].
Qed.

(** X7: [nit1 + nit2] sweeps are [nit1] sweeps followed by [nit2] sweeps from
    their result: the initial guess is the only memory of the solver. *)
Theorem pressure_poisson_continues (pn0 pn1 pn2 : grid) (nit1 nit2 : Z)
  (p : grid) (dx dy : A) (b : grid) :
  (0 <= nit1)%Z -> (0 <= nit2)%Z ->
  pressure_poisson pn0 (nit1 + nit2) p dx dy b =
  bind (pressure_poisson pn1 nit1 p dx dy b)
       (fun q => pressure_poisson pn2 nit2 q dx dy b).
Proof.
  intros N1 N2. unfold pressure_poisson, copy.
  rewrite Z2Nat.inj_add by assumption. apply sweeps_add.
Qed.

End Further.

(** ** The source array, restarts and errors *)

Section Loop.

Context {A : Type} `{Scalar A}.

Local Abbreviation grid := (@grid A) (only parsing).

Lemma nth_repeat_default {X : Type} (x d : X) (n i : nat) :
  nth i (repeat x n) d = if i <? n then x else d.
Proof.
  revert i; induction n as [|n IH]; intros i; simpl.
  - now destruct i.
  - destruct i as [|i]; [reflexivity|]. apply IH.
Qed.

Lemma get_zeros (ny nx i j : nat) : get (zeros ny nx) i j = zero.
Proof.
  unfold get, zeros. rewrite nth_repeat_default.
  destruct (i <? ny).
  - rewrite nth_repeat_default. now destruct (j <? nx).
  - now destruct j.
Qed.

(** *** The source array of the loop *)

Lemma timestep_source (pn0 : grid) (nit : Z) (dt dx dy rho nu : A)
  (s s' : fields) :
  timestep pn0 nit dt dx dy rho nu s = Ok s' ->
  build_up_b (f_b s) rho dt (f_u s) (f_v s) dx dy = Ok (f_b s').
Proof.
  intros E. unfold timestep in E.
  apply bind_inv in E as (b & Eb & E).
  do 12 (apply bind_inv in E as (? & _ & E)).
  injection E as <-. exact Eb.
Qed.

Lemma build_up_b_boundary (ny nx : nat) (b b' : grid) (rho dt : A)
  (u v : grid) (dx dy : A) :
  wf ny nx b -> boundary_zero ny nx b ->
  build_up_b b rho dt u v dx dy = Ok b' ->
  wf ny nx b' /\ boundary_zero ny nx b'.
Proof.
  intros W Z E. apply build_up_b_inv in E as [_ ->].
  split; [wf_tac|]. intros i j I.
  rewrite get_set_interior with (ny := ny) (nx := nx) by exact W.
  rewrite I. now apply Z.
Qed.

Lemma timesteps_source (n : nat) (ny nx : nat) (pn0 : nat -> grid)
  (nit : Z) (dt dx dy rho nu : A) (s s' : fields) :
  wf ny nx (f_b s) -> boundary_zero ny nx (f_b s) ->
  timesteps n pn0 nit dt dx dy rho nu s = Ok s' ->
  wf ny nx (f_b s') /\ boundary_zero ny nx (f_b s').
Proof.
  revert pn0 s; induction n as [|n IH]; intros pn0 s W Z E; simpl in E.
  - injection E as <-. now split.
  - apply bind_inv in E as (s1 & E1 & E2).
    apply timestep_source in E1.
    destruct (@build_up_b_boundary ny nx (f_b s) (f_b s1) rho dt (f_u s)
                (f_v s) dx dy W Z E1) as [W1 Z1].
    now apply (IH (fun k => pn0 (S k)) s1).
Qed.

(** X8: The source array that [cavity_flow] allocates and carries through its
    loop keeps the zeros of [np.zeros] in every cell outside
    [[1:-1, 1:-1]], whatever the fields are. *)
Theorem source_boundary_stays_zero (n : nat) (ny nx : nat)
  (pn0 : nat -> grid) (nit : Z) (dt dx dy rho nu : A) (u v p : grid)
  (s' : fields) :
  timesteps n pn0 nit dt dx dy rho nu (Fields u v p (zeros ny nx)) = Ok s' ->
  wf ny nx (f_b s') /\ boundary_zero ny nx (f_b s').
Proof.
  apply timesteps_source; simpl.
  - apply wf_zeros.
  - intros i j _. apply get_zeros.
Qed.

(** *** Restarting a run *)

Lemma build_up_b_fresh (ny nx : nat) (b : grid) (rho dt : A) (u v : grid)
  (dx dy : A) :
  wf ny nx b -> boundary_zero ny nx b ->
  build_up_b b rho dt u v dx dy =
  build_up_b (zeros ny nx) rho dt u v dx dy.
Proof.
  intros W Z. unfold build_up_b.
  destruct (sdiv one dt) as [c|e]; simpl; [|reflexivity].
  f_equal. apply grid_ext with (ny := ny) (nx := nx); try wf_tac.
  intros i j _ _.
  rewrite !get_set_interior with (ny := ny) (nx := nx) by wf_tac.
  destruct (interior ny nx i j) eqn:I; [reflexivity|].
  rewrite get_zeros. now apply Z.
Qed.

Lemma timesteps_fresh (n : nat) (ny nx : nat) (pn0 : nat -> grid)
  (nit : Z) (dt dx dy rho nu : A) (u v p b : grid) :
  wf ny nx b -> boundary_zero ny nx b ->
  bind (timesteps n pn0 nit dt dx dy rho nu (Fields u v p b)) returned =
  bind (timesteps n pn0 nit dt dx dy rho nu (Fields u v p (zeros ny nx)))
       returned.
Proof.
  intros W Z. destruct n as [|n]; [reflexivity|].
  cbn [timesteps]. f_equal. f_equal.
  unfold timestep. cbn [f_u f_v f_p f_b].
  now rewrite build_up_b_fresh with (ny := ny) (nx := nx).
Qed.

Lemma timesteps_add (n m : nat) (pn0 pn1 pn2 : nat -> grid) (nit : Z)
  (dt dx dy rho nu : A) (s : fields) :
  timesteps (n + m) pn0 nit dt dx dy rho nu s =
  bind (timesteps n pn1 nit dt dx dy rho nu s)
       (timesteps m pn2 nit dt dx dy rho nu).
Proof.
  revert pn0 pn1 s; induction n as [|n IH]; intros pn0 pn1 s.
  - simpl. apply timesteps_garbage.
  - cbn [Nat.add timesteps]. rewrite bind_assoc.
    change (timestep (pn0 0) nit dt dx dy rho nu s)
      with (timestep (pn1 0) nit dt dx dy rho nu s).
    destruct (timestep (pn1 0) nit dt dx dy rho nu s) as [s1|e];
      simpl; [apply IH | reflexivity].
Qed.

(** X9: A run of [nt1 + nt2] timesteps is a run of [nt1] timesteps followed
    by a run of [nt2] timesteps on the fields it returned: the fresh
    source array of the second call changes nothing. *)
Theorem cavity_flow_restarts (un0 vn0 un1 vn1 un2 vn2 : grid)
  (pn0 pn1 pn2 : nat -> grid) (ny nx : nat) (nit nt1 nt2 : Z)
  (u v : grid) (dt dx dy : A) (p : grid) (rho nu : A) :
  (0 <= nt1)%Z -> (0 <= nt2)%Z ->
  cavity_flow un0 vn0 pn0 ny nx nit (nt1 + nt2) u v dt dx dy p rho nu =
  bind (cavity_flow un1 vn1 pn1 ny nx nit nt1 u v dt dx dy p rho nu)
       (fun r =>
          cavity_flow un2 vn2 pn2 ny nx nit nt2 (fst (fst r)) (snd (fst r))
            dt dx dy (snd r) rho nu).
Proof.
  intros N1 N2. unfold cavity_flow.
  rewrite Z2Nat.inj_add by assumption.
  rewrite timesteps_add with (pn1 := pn1) (pn2 := pn2).
  rewrite !bind_assoc.
  destruct (timesteps (Z.to_nat nt1) pn1 nit dt dx dy rho nu
              (Fields u v p (zeros ny nx))) as [s1|e] eqn:E1;
    [|reflexivity].
  cbn [bind fst snd].
  destruct (@source_boundary_stays_zero (Z.to_nat nt1) ny nx pn1 nit dt dx dy
              rho nu u v p s1 E1) as [W Z].
  destruct s1 as [u1 v1 p1 b1]. cbn [f_u f_v f_p f_b] in *.
  apply timesteps_fresh; assumption.
Qed.

(** *** Arrays that the boundary assignments leave as they are *)

Lemma set_col_id (ny nx : nat) (g : grid) (c : nat) (val : nat -> A) :
  wf ny nx g -> (forall i, i < ny -> val i = get g i c) ->
  set_col g c val = g.
Proof.
  intros W E. apply grid_ext with (ny := ny) (nx := nx); try wf_tac.
  intros i j Hi Hj. rewrite get_set_col with (ny := ny) (nx := nx) by wf_tac.
  split_tests; [subst j; now apply E | reflexivity].
Qed.

Lemma set_row_id (ny nx : nat) (g : grid) (r : nat) (val : nat -> A) :
  wf ny nx g -> (forall j, j < nx -> val j = get g r j) ->
  set_row g r val = g.
Proof.
  intros W E. apply grid_ext with (ny := ny) (nx := nx); try wf_tac.
  intros i j Hi Hj. rewrite get_set_row with (ny := ny) (nx := nx) by wf_tac.
  split_tests; [subst i; now apply E | reflexivity].
Qed.

(** X10: On a grid of three rows and columns or more, the pressure arrays that
    the four boundary assignments leave unchanged are those that satisfy
    the four boundary conditions. *)
Theorem pressure_bc_fixed_points (ny nx : nat) (p : grid) :
  wf ny nx p -> 3 <= ny -> 3 <= nx ->
  (pressure_bc p = Ok p <-> pressure_bc_holds ny nx p).
Proof.
  intros W Y X. rewrite pressure_bc_ok with (ny := ny) (nx := nx)
    by (try assumption; lia).
  split.
  - intros E. injection E as E. rewrite <- E.
    now apply pressure_bc_cells_holds.
  - intros (Last & Right & Top & Left). f_equal.
    unfold pressure_bc_cells.
    rewrite set_col_id with (ny := ny) (nx := nx) (g := p)
      by (try exact W; intros i Hi; symmetry; now apply Right).
    rewrite set_row_id with (ny := ny) (nx := nx) (g := p)
      by (try exact W; intros j Hj; symmetry; now apply Top).
    rewrite set_col_id with (ny := ny) (nx := nx) (g := p)
      by (try exact W; intros i Hi; symmetry; now apply Left).
    apply set_row_id with (ny := ny) (nx := nx); [exact W|].
    intros j Hj. symmetry. now apply Last.
Qed.

(** X11: With two rows or more, the velocity arrays that the eight boundary
    assignments leave unchanged are those with the lid row at 1, the rest
    of the edges of [u] at 0 and the edges of [v] at 0. *)
Theorem velocity_bc_fixed_points (ny nx : nat) (u v : grid) :
  wf ny nx u -> wf ny nx v -> 2 <= ny -> 1 <= nx ->
  (velocity_bc u v = Ok (u, v) <-> velocity_bc_lid ny nx u v).
Proof.
  intros U V Y X. rewrite velocity_bc_ok with (ny := ny) (nx := nx)
    by (try assumption; lia).
  split.
  - intros E.
    assert (E' : velocity_bc_cells ny nx u v = (u, v)) by congruence.
    pose proof (@velocity_bc_cells_lid A _ ny nx u v U V Y X) as L.
    rewrite E' in L. exact L.
  - intros (Lid & Top & Left & Right & VT & VB & VL & VR).
    f_equal. unfold velocity_bc_cells. f_equal.
    + apply grid_ext with (ny := ny) (nx := nx); try wf_tac.
      intros i j Hi Hj. get_cells ny nx. split_tests; symmetry;
        first [ subst; now apply Lid | subst; now apply Top
              | subst; apply Left; lia | subst; apply Right; lia
              | reflexivity ].
    + apply grid_ext with (ny := ny) (nx := nx); try wf_tac.
      intros i j Hi Hj. get_cells ny nx. split_tests; symmetry;
        first [ subst; now apply VT | subst; now apply VB
              | subst; now apply VL | subst; now apply VR
              | reflexivity ].
Qed.

(** *** Errors *)

Lemma sdiv_raise (x y : A) (e : exn) :
  sdiv x y = Raise e -> e = ZeroDivisionError.
Proof.
  unfold sdiv. destruct (is_zero y); [|discriminate].
  intros E. now injection E.
Qed.

Lemma spow2_raise (x : A) (e : exn) :
  spow2 x = Raise e -> e = OverflowError.
Proof.
  unfold spow2. destruct (pow_overflows x); [|discriminate].
  intros E. now injection E.
Qed.

Lemma sweeps_raise (n : nat) (ny nx : nat) (dx dy : A) (b p : grid)
  (e : exn) :
  wf ny nx p -> 2 <= ny -> 2 <= nx ->
  sweeps n dx dy b p = Raise e ->
  e = ZeroDivisionError \/ e = OverflowError.
Proof.
  intros W Y X E.
  destruct (pow_overflows dy) eqn:Oy.
  { destruct n as [|n]; [discriminate|].
    simpl in E. unfold sweep, spow2 in E. rewrite Oy in E. simpl in E.
    right. now injection E. }
  destruct (pow_overflows dx) eqn:Ox.
  { destruct n as [|n]; [discriminate|].
    simpl in E. unfold sweep, spow2 in E. rewrite Oy, Ox in E. simpl in E.
    right. now injection E. }
  destruct (is_zero (two * (sqr dx + sqr dy))%sc) eqn:Z.
  - destruct n as [|n]; [discriminate|].
    simpl in E. unfold sweep, spow2, sdiv in E.
    rewrite Oy, Ox in E. cbn [bind] in E. rewrite Z in E. simpl in E.
    left. now injection E.
  - destruct (sweeps_ok n b W Y X Z (conj Ox Oy)) as (p' & E' & _).
    rewrite E' in E. discriminate.
Qed.

Lemma timestep_raise (ny nx : nat) (pn0 : grid) (nit : Z)
  (dt dx dy rho nu : A) (s : fields) (e : exn) :
  wf_fields ny nx s -> 2 <= ny -> 2 <= nx ->
  timestep pn0 nit dt dx dy rho nu s = Raise e ->
  e = ZeroDivisionError \/ e = OverflowError.
Proof.
  intros (U & V & P & B) Y X E. unfold timestep, copy in E.
  destruct (build_up_b _ _ _ _ _ _ _) as [b|e0] eqn:Eb.
  2:{ simpl in E. injection E as <-. unfold build_up_b in Eb.
      destruct (sdiv one dt) as [c|e1] eqn:Ed; [discriminate|].
      simpl in Eb. injection Eb as <-. left. eapply sdiv_raise; exact Ed. }
  simpl in E.
  destruct (pressure_poisson _ _ _ _ _ _) as [p|e0] eqn:Ep.
  2:{ simpl in E. injection E as <-. unfold pressure_poisson in Ep.
      eapply sweeps_raise; [exact P | exact Y | exact X | exact Ep]. }
  simpl in E.
  repeat match type of E with
         | bind (sdiv ?x ?y) _ = _ =>
             let Ed := fresh "Ed" in
             destruct (sdiv x y) as [?|?] eqn:Ed;
             [ simpl in E
             | simpl in E; injection E as <-; left;
               eapply sdiv_raise; exact Ed ]
         | bind (spow2 ?x) _ = _ =>
             let Ed := fresh "Ed" in
             destruct (spow2 x) as [?|?] eqn:Ed;
             [ simpl in E
             | simpl in E; injection E as <-; right;
               eapply spow2_raise; exact Ed ]
         end.
  rewrite velocity_bc_ok with (ny := ny) (nx := nx) in E
    by (try wf_tac; lia).
  discriminate.
Qed.

Lemma timesteps_raise (n : nat) (ny nx : nat) (pn0 : nat -> grid) (nit : Z)
  (dt dx dy rho nu : A) (s : fields) (e : exn) :
  wf_fields ny nx s -> 2 <= ny -> 2 <= nx ->
  timesteps n pn0 nit dt dx dy rho nu s = Raise e ->
  e = ZeroDivisionError \/ e = OverflowError.
Proof.
  intros W Y X. revert pn0 s W; induction n as [|n IH]; intros pn0 s W E.
  - discriminate.
  - simpl in E.
    destruct (timestep (pn0 0) nit dt dx dy rho nu s) as [s1|e1] eqn:E1.
    + simpl in E. apply (IH (fun k => pn0 (S k)) s1); [|exact E].
      eapply timestep_wf; try eassumption; lia.
    + simpl in E. injection E as <-.
      eapply timestep_raise; eassumption.
Qed.

(** X12: On arrays of one shape of two rows and columns or more,
    [cavity_flow] raises no [IndexError]: every error of a run is the
    [ZeroDivisionError] of a division of two scalars or the [OverflowError]
    of [dx ** 2] or [dy ** 2]. *)
Theorem cavity_flow_raises_no_index_error (un0 vn0 : grid)
  (pn0 : nat -> grid) (ny nx : nat) (nit nt : Z) (u v : grid)
  (dt dx dy : A) (p : grid) (rho nu : A) (e : exn) :
  wf ny nx u -> wf ny nx v -> wf ny nx p -> 2 <= ny -> 2 <= nx ->
  cavity_flow un0 vn0 pn0 ny nx nit nt u v dt dx dy p rho nu = Raise e ->
  e = ZeroDivisionError \/ e = OverflowError.
Proof.
  intros U V P Y X E. unfold cavity_flow in E.
  destruct (timesteps _ _ _ _ _ _ _ _ _) as [s'|e'] eqn:E'; [discriminate|].
  simpl in E. injection E as <-.
  eapply timesteps_raise; [| exact Y | exact X | exact E'].
  unfold wf_fields; simpl. split; [|split; [|split]]; try assumption.
  apply wf_zeros.
Qed.

(** No scalar operation of a timestep that returned has raised. *)
Lemma timestep_scalars (ny nx : nat) (pn0 : grid) (nit : Z)
  (dt dx dy rho nu : A) (s s' : fields) :
  wf ny nx (f_p s) -> 2 <= ny -> 2 <= nx -> (1 <= nit)%Z ->
  timestep pn0 nit dt dx dy rho nu s = Ok s' ->
  scalars_defined dt dx dy rho.
Proof.
  intros P Y X N E. unfold timestep, copy in E.
  apply bind_inv in E as (b & Eb & E). apply build_up_b_inv in Eb as [Zt _].
  apply bind_inv in E as (p & Ep & E).
  unfold pressure_poisson in Ep.
  destruct (Z.to_nat nit) as [|n] eqn:En; [lia|]. simpl in Ep.
  apply bind_inv in Ep as (p1 & Ep1 & _).
  destruct (@sweep_inv _ _ ny nx dx dy b (f_p s) p1 P Y X Ep1)
    as [[O Zd] _].
  apply bind_inv in E as (gx & Egx & E). apply sdiv_inv in Egx as [Zgx _].
  apply bind_inv in E as (dx2 & Ex & E). apply spow2_inv in Ex as [_ ->].
  apply bind_inv in E as (kx & Ekx & E). apply sdiv_inv in Ekx as [Zkx _].
  apply bind_inv in E as (dy2 & Ey & E). apply spow2_inv in Ey as [_ ->].
  apply bind_inv in E as (ky & Eky & E). apply sdiv_inv in Eky as [Zky _].
  apply bind_inv in E as (gy & Egy & E). apply sdiv_inv in Egy as [Zgy _].
  split; [exact O|]. unfold divisors_nonzero. now repeat split.
Qed.

(** X13: On arrays of one shape of two rows and columns or more, with one
    timestep or more and one pressure iteration or more, [cavity_flow]
    returns fields exactly when no scalar operation raises: [dx ** 2] and
    [dy ** 2] do not overflow, and none of the divisors [dt],
    [2 * (dx**2 + dy**2)], [2 * rho * dx], [2 * rho * dy], [dx**2] and
    [dy**2], as the arithmetic computes them, is zero. *)
Theorem cavity_flow_returns_iff_scalars_defined (un0 vn0 : grid)
  (pn0 : nat -> grid) (ny nx : nat) (nit nt : Z) (u v : grid)
  (dt dx dy : A) (p : grid) (rho nu : A) :
  wf ny nx u -> wf ny nx v -> wf ny nx p -> 2 <= ny -> 2 <= nx ->
  (1 <= nt)%Z -> (1 <= nit)%Z ->
  ((exists u' v' p',
      cavity_flow un0 vn0 pn0 ny nx nit nt u v dt dx dy p rho nu =
      Ok (u', v', p')) <->
   scalars_defined dt dx dy rho).
Proof.
  intros U V P Y X Nt Ni. split.
  - intros (u' & v' & p' & E). unfold cavity_flow in E.
    apply bind_inv in E as (s' & E & _).
    destruct (Z.to_nat nt) as [|n] eqn:En; [lia|].
    simpl in E. apply bind_inv in E as (s1 & E1 & _).
    eapply timestep_scalars; [| exact Y | exact X | exact Ni | exact E1].
    exact P.
  - intros D. now apply cavity_flow_returns.
Qed.

End Loop.

(** ** The corner cells of the inputs *)

(** A cell next to an interior cell is in range and is not a corner. *)
Ltac off_corner :=
  match goal with
  | |- corner _ _ _ _ = false =>
      unfold corner;
      repeat (match goal with
              | |- context [Nat.eqb ?a ?b] => destruct (Nat.eqb_spec a b)
              end; try lia; cbn [andb orb]);
      reflexivity
  | |- _ => lia
  end.

Section Corners.

Context {A : Type} `{Scalar A}.

Local Abbreviation grid := (@grid A) (only parsing).

Lemma source_cell_corners (ny nx : nat) (rho c dx dy : A)
  (u1 v1 u2 v2 : grid) (i j : nat) :
  agree_off_corners ny nx u1 u2 -> agree_off_corners ny nx v1 v2 ->
  interior ny nx i j = true ->
  source_cell rho c dx dy u1 v1 i j = source_cell rho c dx dy u2 v2 i j.
Proof.
  intros U V I. apply interior_bounds in I. unfold source_cell.
  rewrite (U i (j + 1)), (U i (j - 1)), (U (i + 1) j), (U (i - 1) j),
    (V i (j + 1)), (V i (j - 1)), (V (i + 1) j), (V (i - 1) j)
    by off_corner.
  reflexivity.
Qed.

Lemma jacobi_cell_corners (ny nx : nat) (dx dy c : A) (b p1 p2 : grid)
  (i j : nat) :
  agree_off_corners ny nx p1 p2 -> interior ny nx i j = true ->
  jacobi_cell dx dy c b p1 i j = jacobi_cell dx dy c b p2 i j.
Proof.
  intros P I. apply interior_bounds in I. unfold jacobi_cell.
  rewrite (P i (j + 1)), (P i (j - 1)), (P (i + 1) j), (P (i - 1) j)
    by off_corner.
  reflexivity.
Qed.

Lemma u_cell_corners (ny nx : nat) (dt dx dy gx kx ky nu : A)
  (u1 v1 u2 v2 p : grid) (i j : nat) :
  agree_off_corners ny nx u1 u2 -> agree_off_corners ny nx v1 v2 ->
  interior ny nx i j = true ->
  u_cell dt dx dy gx kx ky nu u1 v1 p i j =
  u_cell dt dx dy gx kx ky nu u2 v2 p i j.
Proof.
  intros U V I. apply interior_bounds in I. unfold u_cell.
  rewrite (U i j), (U i (j + 1)), (U i (j - 1)), (U (i + 1) j),
    (U (i - 1) j), (V i j) by off_corner.
  reflexivity.
Qed.

Lemma v_cell_corners (ny nx : nat) (dt dx dy gy kx ky nu : A)
  (u1 v1 u2 v2 p : grid) (i j : nat) :
  agree_off_corners ny nx u1 u2 -> agree_off_corners ny nx v1 v2 ->
  interior ny nx i j = true ->
  v_cell dt dx dy gy kx ky nu u1 v1 p i j =
  v_cell dt dx dy gy kx ky nu u2 v2 p i j.
Proof.
  intros U V I. apply interior_bounds in I. unfold v_cell.
  rewrite (V i j), (V i (j + 1)), (V i (j - 1)), (V (i + 1) j),
    (V (i - 1) j), (U i j) by off_corner.
  reflexivity.
Qed.

Lemma interior_true (ny nx i j : nat) :
  1 <= i -> i + 1 < ny -> 1 <= j -> j + 1 < nx -> interior ny nx i j = true.
Proof.
  intros I1 I2 J1 J2. unfold interior.
  apply Nat.leb_le in I1, J1. apply Nat.ltb_lt in I2, J2.
  now rewrite I1, I2, J1, J2.
Qed.

(** The boundary assignments of the pressure overwrite the corners from
    cells that are not corners. *)
Lemma pressure_bc_cells_corners (ny nx : nat) (p1 p2 : grid) :
  wf ny nx p1 -> wf ny nx p2 -> 3 <= ny -> 3 <= nx ->
  agree_off_corners ny nx p1 p2 ->
  pressure_bc_cells ny nx p1 = pressure_bc_cells ny nx p2.
Proof.
  intros W1 W2 Y X P.
  apply grid_ext with (ny := ny) (nx := nx);
    try (apply wf_pressure_bc_cells; assumption).
  intros i j Hi Hj. unfold pressure_bc_cells. get_cells ny nx.
  split_tests; try reflexivity; apply P; off_corner.
Qed.

Lemma sweep_corners (ny nx : nat) (dx dy : A) (b p1 p2 : grid) :
  wf ny nx p1 -> wf ny nx p2 -> 3 <= ny -> 3 <= nx ->
  agree_off_corners ny nx p1 p2 ->
  sweep dx dy b p1 = sweep dx dy b p2.
Proof.
  intros W1 W2 Y X P. unfold sweep, copy.
  destruct (spow2 dy) as [dy2|e]; cbn [bind]; [|reflexivity].
  destruct (spow2 dx) as [dx2|e]; cbn [bind]; [|reflexivity].
  destruct (sdiv _ _) as [c|e]; simpl; [|reflexivity].
  rewrite !pressure_bc_ok with (ny := ny) (nx := nx) by (try wf_tac; lia).
  f_equal. apply pressure_bc_cells_corners; try wf_tac; try assumption.
  intros i j Hi Hj C.
  rewrite !get_set_interior with (ny := ny) (nx := nx) by assumption.
  destruct (interior ny nx i j) eqn:I.
  - now apply jacobi_cell_corners with (ny := ny) (nx := nx).
  - now apply P.
Qed.

Lemma sweeps_corners (n : nat) (ny nx : nat) (dx dy : A) (b p1 p2 : grid) :
  wf ny nx p1 -> wf ny nx p2 -> 3 <= ny -> 3 <= nx -> 1 <= n ->
  agree_off_corners ny nx p1 p2 ->
  sweeps n dx dy b p1 = sweeps n dx dy b p2.
Proof.
  intros W1 W2 Y X N P. destruct n as [|n]; [lia|]. cbn [sweeps].
  now rewrite sweep_corners with (ny := ny) (nx := nx) (p2 := p2).
Qed.

Lemma velocity_bc_cells_corners (ny nx : nat) (u1 v1 u2 v2 : grid) :
  wf ny nx u1 -> wf ny nx v1 -> wf ny nx u2 -> wf ny nx v2 ->
  agree_off_corners ny nx u1 u2 -> agree_off_corners ny nx v1 v2 ->
  velocity_bc_cells ny nx u1 v1 = velocity_bc_cells ny nx u2 v2.
Proof.
  intros U1 V1 U2 V2 U V. unfold velocity_bc_cells. f_equal.
  - apply grid_ext with (ny := ny) (nx := nx); try wf_tac.
    intros i j Hi Hj. get_cells ny nx.
    split_tests; try reflexivity; apply U; off_corner.
  - apply grid_ext with (ny := ny) (nx := nx); try wf_tac.
    intros i j Hi Hj. get_cells ny nx.
    split_tests; try reflexivity; apply V; off_corner.
Qed.

Lemma timestep_corners (ny nx : nat) (pn0 : grid) (nit : Z)
  (dt dx dy rho nu : A) (u1 v1 p1 u2 v2 p2 b : grid) :
  wf ny nx u1 -> wf ny nx v1 -> wf ny nx p1 ->
  wf ny nx u2 -> wf ny nx v2 -> wf ny nx p2 -> wf ny nx b ->
  3 <= ny -> 3 <= nx -> (1 <= nit)%Z ->
  agree_off_corners ny nx u1 u2 -> agree_off_corners ny nx v1 v2 ->
  agree_off_corners ny nx p1 p2 ->
  timestep pn0 nit dt dx dy rho nu (Fields u1 v1 p1 b) =
  timestep pn0 nit dt dx dy rho nu (Fields u2 v2 p2 b).
Proof.
  intros U1 V1 P1 U2 V2 P2 B Y X N U V P.
  unfold timestep, copy. cbn [f_u f_v f_p f_b].
  assert (Eb : build_up_b b rho dt u1 v1 dx dy =
               build_up_b b rho dt u2 v2 dx dy).
  { unfold build_up_b. destruct (sdiv one dt) as [c|e]; simpl; [|reflexivity].
    f_equal. apply set_interior_ext with (ny := ny) (nx := nx); [exact B|].
    intros i j I. now apply source_cell_corners with (ny := ny) (nx := nx). }
  rewrite Eb. destruct (build_up_b b rho dt u2 v2 dx dy) as [b'|e];
    simpl; [|reflexivity].
  assert (Ep : pressure_poisson pn0 nit p1 dx dy b' =
               pressure_poisson pn0 nit p2 dx dy b').
  { unfold pressure_poisson, copy.
    apply sweeps_corners with (ny := ny) (nx := nx); try assumption. lia. }
  rewrite Ep. destruct (pressure_poisson pn0 nit p2 dx dy b') as [p|e];
    simpl; [|reflexivity].
  repeat match goal with
         | |- bind (sdiv ?x ?y) _ = _ =>
             destruct (sdiv x y) as [?|?]; simpl; [|reflexivity]
         | |- bind (spow2 ?x) _ = _ =>
             destruct (spow2 x) as [?|?]; simpl; [|reflexivity]
         end.
  rewrite !velocity_bc_ok with (ny := ny) (nx := nx) by (try wf_tac; lia).
  match goal with
  | |- bind (Ok (velocity_bc_cells ny nx ?a1 ?c1)) _ =
       bind (Ok (velocity_bc_cells ny nx ?a2 ?c2)) _ =>
      assert (Ev : velocity_bc_cells ny nx a1 c1 =
                   velocity_bc_cells ny nx a2 c2)
  end.
  { apply velocity_bc_cells_corners; try wf_tac.
    - intros i j Hi Hj C.
      rewrite !get_set_interior with (ny := ny) (nx := nx) by assumption.
      destruct (interior ny nx i j) eqn:I; [|now apply U].
      now apply u_cell_corners with (ny := ny) (nx := nx).
    - intros i j Hi Hj C.
      rewrite !get_set_interior with (ny := ny) (nx := nx) by assumption.
      destruct (interior ny nx i j) eqn:I; [|now apply V].
      now apply v_cell_corners with (ny := ny) (nx := nx). }
  now rewrite Ev.
Qed.

(** X14: With one timestep and one sweep or more, on grids of three rows and
    columns or more, the four corner cells of the fields passed to
    [cavity_flow] are never read: fields that differ in their corners only
    give the same outcome. *)
Theorem cavity_flow_ignores_corners (un0 vn0 : grid) (pn0 : nat -> grid)
  (ny nx : nat) (nit nt : Z) (u1 v1 p1 u2 v2 p2 : grid)
  (dt dx dy rho nu : A) :
  wf ny nx u1 -> wf ny nx v1 -> wf ny nx p1 ->
  wf ny nx u2 -> wf ny nx v2 -> wf ny nx p2 ->
  3 <= ny -> 3 <= nx -> (1 <= nt)%Z -> (1 <= nit)%Z ->
  agree_off_corners ny nx u1 u2 -> agree_off_corners ny nx v1 v2 ->
  agree_off_corners ny nx p1 p2 ->
  cavity_flow un0 vn0 pn0 ny nx nit nt u1 v1 dt dx dy p1 rho nu =
  cavity_flow un0 vn0 pn0 ny nx nit nt u2 v2 dt dx dy p2 rho nu.
Proof.
  intros U1 V1 P1 U2 V2 P2 Y X Nt Ni U V P. unfold cavity_flow.
  destruct (Z.to_nat nt) as [|n] eqn:E; [lia|]. cbn [timesteps].
  rewrite timestep_corners with (ny := ny) (nx := nx)
    (u2 := u2) (v2 := v2) (p2 := p2); try assumption.
  - reflexivity.
  - apply wf_zeros.
Qed.

End Corners.

(** ** The pressure that a run returns *)

Section Returned.

Context {A : Type} `{Scalar A}.

Local Abbreviation grid := (@grid A) (only parsing).

(** The pressure of a run of one timestep or more was returned by
    [pressure_poisson], called on an array of the shape of the fields. *)
Lemma timesteps_last_pressure (n : nat) (ny nx : nat) (pn0 : nat -> grid)
  (nit : Z) (dt dx dy rho nu : A) (s s' : fields) :
  wf_fields ny nx s -> 1 <= n ->
  timesteps n pn0 nit dt dx dy rho nu s = Ok s' ->
  exists pn q b,
    wf ny nx q /\ pressure_poisson pn nit q dx dy b = Ok (f_p s').
Proof.
  revert pn0 s; induction n as [|n IH]; intros pn0 s W N E; [lia|].
  simpl in E. apply bind_inv in E as (s1 & E1 & E2).
  destruct W as (U & V & P & B).
  destruct (timestep_sizes _ _ _ _ _ _ _ _ U E1) as [Y X].
  destruct n as [|n].
  - simpl in E2. injection E2 as <-.
    destruct (@timestep_inv A _ ny nx (pn0 0) nit dt dx dy rho nu s s1
                U V Y X E1) as (b & p & _ & Ep & ->).
    exists (pn0 0), (f_p s), b. split; [exact P | exact Ep].
  - apply (IH (fun k => pn0 (S k)) s1); [|lia|exact E2].
    eapply timestep_wf; try eassumption. unfold wf_fields. tauto.
Qed.

(** X15: With one timestep and one sweep or more, on grids of three rows and
    columns or more, the pressure that [cavity_flow] returns satisfies the
    four pressure boundary conditions, whatever pressure it was passed. *)
Theorem cavity_flow_returns_pressure_bc (un0 vn0 : grid)
  (pn0 : nat -> grid) (ny nx : nat) (nit nt : Z) (u v : grid)
  (dt dx dy : A) (p : grid) (rho nu : A) (u' v' p' : grid) :
  wf ny nx u -> wf ny nx v -> wf ny nx p -> 3 <= ny -> 3 <= nx ->
  (1 <= nt)%Z -> (1 <= nit)%Z ->
  cavity_flow un0 vn0 pn0 ny nx nit nt u v dt dx dy p rho nu =
    Ok (u', v', p') ->
  pressure_bc_holds ny nx p'.
Proof.
  intros U V P Y X Nt Ni E. unfold cavity_flow in E.
  apply bind_inv in E as (s' & E & R). injection R as <- <- <-.
  assert (W : wf_fields ny nx (Fields u v p (zeros ny nx))).
  { unfold wf_fields; simpl. split; [|split; [|split]]; try assumption.
    apply wf_zeros. }
  apply timesteps_last_pressure with (ny := ny) (nx := nx) in E;
    [|exact W|lia].
  destruct E as (pn & q & b & Wq & Ep). unfold pressure_poisson in Ep.
  destruct (@sweeps_last A _ (Z.to_nat nit) ny nx dx dy b q (f_p s') Wq)
    as (q' & Wq' & Es); [lia|exact Ep|].
  apply sweep_inv with (ny := ny) (nx := nx) in Es as [_ ->];
    try assumption; try lia.
  unfold sweep_cells. apply pressure_bc_cells_holds; try assumption.
  wf_tac.
Qed.

(** *** The script *)

Lemma script_solver (of_int : Z -> A) (point_one : A) (un0 vn0 : grid)
  (pn0 : nat -> grid) (nx ny : Z) (dt : A) :
  (nx <> 1)%Z -> (ny <> 1)%Z -> (0 <= nx)%Z -> (0 <= ny)%Z ->
  exists x y,
    linspace of_int zero two nx = Finished x /\
    linspace of_int zero two ny = Finished y /\
    script of_int point_one un0 vn0 pn0 nx ny dt =
    and_then
      (lift (cavity_flow un0 vn0 pn0 (Z.to_nat ny) (Z.to_nat nx) 50 700
               (zeros (Z.to_nat ny) (Z.to_nat nx))
               (zeros (Z.to_nat ny) (Z.to_nat nx)) dt
               (of_int 2%Z / of_int (nx - 1)%Z)%sc
               (of_int 2%Z / of_int (ny - 1)%Z)%sc
               (zeros (Z.to_nat ny) (Z.to_nat nx)) one point_one))
      (fun uvp => Finished (fst (meshgrid x y), snd (meshgrid x y), uvp)).
Proof.
  intros X1 Y1 X0 Y0. unfold script, int_div, linspace.
  destruct (Z.eqb_spec (nx - 1) 0) as [E|_]; [lia|].
  destruct (Z.eqb_spec (ny - 1) 0) as [E|_]; [lia|].
  destruct (Z.ltb_spec nx 0) as [E|_]; [lia|].
  destruct (Z.ltb_spec ny 0) as [E|_]; [lia|].
  cbn [and_then]. eexists. eexists.
  split; [reflexivity|]. split; reflexivity.
Qed.

(** X16: With [--nx 1] or [--ny 1] the script stops at [2 / (nx - 1)] or
    [2 / (ny - 1)] with [ZeroDivisionError], before it allocates an
    array. *)
Theorem script_one_row_or_column (of_int : Z -> A) (point_one : A)
  (un0 vn0 : grid) (pn0 : nat -> grid) (nx ny : Z) (dt : A) :
  nx = 1%Z \/ ny = 1%Z ->
  script of_int point_one un0 vn0 pn0 nx ny dt =
  Aborted (Propagated ZeroDivisionError).
Proof.
  intros E. unfold script, int_div.
  destruct (Z.eqb_spec (nx - 1) 0) as [_|X]; [reflexivity|].
  cbn [and_then].
  destruct (Z.eqb_spec (ny - 1) 0) as [_|Y]; [reflexivity|].
  lia.
Qed.

(** X17: With a negative [--nx] or [--ny], and neither of them 1, the script
    stops in [np.linspace] with [ValueError]; the solver is not called. *)
Theorem script_negative_size (of_int : Z -> A) (point_one : A)
  (un0 vn0 : grid) (pn0 : nat -> grid) (nx ny : Z) (dt : A) :
  (nx <> 1)%Z -> (ny <> 1)%Z -> (nx < 0 \/ ny < 0)%Z ->
  script of_int point_one un0 vn0 pn0 nx ny dt = Aborted ValueError.
Proof.
  intros X1 Y1 E. unfold script, int_div, linspace.
  destruct (Z.eqb_spec (nx - 1) 0) as [E0|_]; [lia|].
  destruct (Z.eqb_spec (ny - 1) 0) as [E0|_]; [lia|].
  cbn [and_then].
  destruct (Z.ltb_spec nx 0) as [_|X]; [reflexivity|].
  cbn [and_then].
  destruct (Z.ltb_spec ny 0) as [_|Y]; [reflexivity|].
  lia.
Qed.

End Returned.

(** ** Errors and the script, over the real numbers *)

Section RealsMore.

Local Abbreviation grid := (@grid R) (only parsing).

Lemma nth_imap {X Y : Type} (f : nat -> X -> Y) (dx : X) (dy : Y)
  (l : list X) (i : nat) :
  i < length l -> nth i (imap f l) dy = f i (nth i l dx).
Proof.
  intros L. unfold imap. rewrite (nth_imap_from f dx dy).
  apply Nat.ltb_lt in L. now rewrite L.
Qed.

Lemma nth_map_lt {X Y : Type} (f : X -> Y) (l : list X) (dx : X) (dy : Y)
  (i : nat) :
  i < length l -> nth i (map f l) dy = f (nth i l dx).
Proof.
  intros L. rewrite nth_indep with (d' := f dx) by (now rewrite length_map).
  apply map_nth.
Qed.

(** The samples of [np.linspace(0, 2, n)] are the multiples of
    [2 / (n - 1)]. *)
Lemma linspace_multiples (n : Z) (k : nat) :
  (2 <= n)%Z -> k < Z.to_nat n ->
  exists x,
    linspace IZR 0%R 2%R n = Finished x /\ length x = Z.to_nat n /\
    nth k x 0%R = (INR k * (2 / IZR (n - 1)))%R.
Proof.
  intros N K. unfold linspace.
  destruct (Z.ltb_spec n 0) as [E|_]; [lia|].
  eexists. split; [reflexivity|]. split.
  - unfold imap. now rewrite imap_from_length, repeat_length.
  - rewrite (nth_imap _ 0%R 0%R) by (rewrite repeat_length; exact K).
    assert (D : IZR (n - 1) <> 0%R) by (apply not_0_IZR; lia).
    destruct (Nat.leb_spec 2 (Z.to_nat n)) as [_|E]; [|lia].
    rewrite <- INR_IZR_INZ. cbn [andb].
    destruct (Nat.eqb_spec k (Z.to_nat n - 1)) as [->|_].
    + rewrite minus_INR by lia. rewrite INR_IZR_INZ, Z2Nat.id by lia.
      rewrite minus_IZR. simpl. field.
      rewrite <- minus_IZR. exact D.
    + simpl. unfold Rdiv. ring.
Qed.

Lemma script_returns (un0 vn0 : grid) (pn0 : nat -> grid) (nx ny : Z)
  (dt : R) :
  (2 <= nx)%Z -> (2 <= ny)%Z -> dt <> 0%R ->
  exists X Y r,
    script IZR (1 / 10)%R un0 vn0 pn0 nx ny dt = Finished (X, Y, r).
Proof.
  intros Nx Ny Nt.
  destruct (@script_solver R _ IZR (1 / 10)%R un0 vn0 pn0 nx ny dt)
    as (x & y & _ & _ & Es); try lia.
  rewrite Es. clear Es.
  assert (Dx : IZR (nx - 1) <> 0%R) by (apply not_0_IZR; lia).
  assert (Dy : IZR (ny - 1) <> 0%R) by (apply not_0_IZR; lia).
  destruct (@cavity_flow_returns R _ un0 vn0 pn0 (Z.to_nat ny) (Z.to_nat nx)
              50%Z 700%Z (zeros (Z.to_nat ny) (Z.to_nat nx))
              (zeros (Z.to_nat ny) (Z.to_nat nx)) dt
              (IZR 2 / IZR (nx - 1))%R (IZR 2 / IZR (ny - 1))%R
              (zeros (Z.to_nat ny) (Z.to_nat nx)) 1%R (1 / 10)%R)
    as (u' & v' & p' & E); try apply wf_zeros; try lia.
  - apply scalars_defined_R; try assumption; try lra.
    + unfold Rdiv. intros E. apply Rmult_integral in E as [E|E]; [lra|].
      now apply (Rinv_neq_0_compat _ Dx).
    + unfold Rdiv. intros E. apply Rmult_integral in E as [E|E]; [lra|].
      now apply (Rinv_neq_0_compat _ Dy).
  - simpl in E |- *. rewrite E. cbn [lift and_then]. eauto.
Qed.

(** X18: For [--nx] and [--ny] of 2 or more, the coordinates of the mesh that
    the script plots on are the multiples of the [dx] and [dy] that it
    passes to the solver: [X[i, j] = j * dx] and [Y[i, j] = i * dy]. *)
Theorem script_mesh_matches_spacing (un0 vn0 : grid) (pn0 : nat -> grid)
  (nx ny : Z) (dt : R) (X Y : grid) (r : grid * grid * grid) (i j : nat) :
  (2 <= nx)%Z -> (2 <= ny)%Z ->
  script IZR (1 / 10)%R un0 vn0 pn0 nx ny dt = Finished (X, Y, r) ->
  i < Z.to_nat ny -> j < Z.to_nat nx ->
  get X i j = (INR j * (2 / IZR (nx - 1)))%R /\
  get Y i j = (INR i * (2 / IZR (ny - 1)))%R.
Proof.
  intros Nx Ny E Hi Hj.
  destruct (@script_solver R _ IZR (1 / 10)%R un0 vn0 pn0 nx ny dt)
    as (x & y & Ex & Ey & Es); try lia.
  rewrite Es in E.
  destruct (lift _) as [uvp|e]; [|discriminate].
  cbn [and_then] in E. injection E as <- <- _.
  destruct (@linspace_multiples nx j Nx Hj) as (x' & Ex' & Lx & Vx).
  destruct (@linspace_multiples ny i Ny Hi) as (y' & Ey' & Ly & Vy).
  simpl in Ex, Ey. rewrite Ex in Ex'. rewrite Ey in Ey'.
  injection Ex' as <-. injection Ey' as <-.
  unfold meshgrid, get. cbn [fst snd]. split.
  - rewrite (nth_map_lt (fun _ : R => x) y 0%R []) by lia. exact Vx.
  - rewrite (nth_map_lt (fun yi : R => map (fun _ => yi) x) y 0%R []) by lia.
    rewrite (nth_map_lt (fun _ : R => nth i y 0%R) x 0%R 0%R) by lia.
    exact Vy.
Qed.

(** X19: For [--nx] and [--ny] of 3 or more and a [--dt] that is not zero, the
    script gets from the solver, after its 700 timesteps of 50 sweeps,
    fields of shape [ny x nx] that satisfy the velocity and the pressure
    boundary conditions. *)
Theorem script_fields (un0 vn0 : grid) (pn0 : nat -> grid) (nx ny : Z)
  (dt : R) :
  (3 <= nx)%Z -> (3 <= ny)%Z -> dt <> 0%R ->
  exists X Y u v p,
    script IZR (1 / 10)%R un0 vn0 pn0 nx ny dt = Finished (X, Y, (u, v, p)) /\
    wf (Z.to_nat ny) (Z.to_nat nx) u /\
    wf (Z.to_nat ny) (Z.to_nat nx) v /\
    wf (Z.to_nat ny) (Z.to_nat nx) p /\
    velocity_bc_lid (Z.to_nat ny) (Z.to_nat nx) u v /\
    pressure_bc_holds (Z.to_nat ny) (Z.to_nat nx) p.
Proof.
  intros Nx Ny Nt.
  destruct (@script_solver R _ IZR (1 / 10)%R un0 vn0 pn0 nx ny dt)
    as (x & y & _ & _ & Es); try lia.
  rewrite Es. clear Es. unfold cavity_flow.
  set (n := Z.to_nat ny). set (m := Z.to_nat nx).
  set (dx := (IZR 2 / IZR (nx - 1))%sc).
  set (dy := (IZR 2 / IZR (ny - 1))%sc).
  assert (Dx : IZR (nx - 1) <> 0%R) by (apply not_0_IZR; lia).
  assert (Dy : IZR (ny - 1) <> 0%R) by (apply not_0_IZR; lia).
  assert (Zx : dx <> 0%R).
  { subst dx. simpl. unfold Rdiv. intros E.
    apply Rmult_integral in E as [E|E]; [lra|].
    now apply (Rinv_neq_0_compat _ Dx). }
  assert (Zy : dy <> 0%R).
  { subst dy. simpl. unfold Rdiv. intros E.
    apply Rmult_integral in E as [E|E]; [lra|].
    now apply (Rinv_neq_0_compat _ Dy). }
  assert (D : scalars_defined dt dx dy one)
    by (apply scalars_defined_R; try assumption; simpl; lra).
  set (z := @zeros R Scalar_R n m).
  assert (W : wf_fields n m (Fields z z z z)).
  { unfold wf_fields; simpl. split; [|split; [|split]]; apply wf_zeros. }
  assert (Sy : 3 <= n) by (subst n; lia).
  assert (Sx : 3 <= m) by (subst m; lia).
  destruct (@timesteps_ok R _ (Z.to_nat 700) n m pn0 50%Z dt dx dy one
              (1 / 10)%R _ W) as (s' & E & (U' & V' & P' & _));
    try lia; try exact D.
  assert (BV : velocity_bc_lid n m (f_u s') (f_v s')).
  { pose proof E as E1.
    apply timesteps_last with (ny := n) (nx := m) in E1 as
        (s0 & b & q & (U0 & V0 & _) & _ & E1); try exact W; try lia.
    rewrite E1. unfold timestep_cells; cbn [f_u f_v].
    apply (@velocity_bc_cells_lid R Scalar_R); try lia;
      unfold u_interior, v_interior; wf_tac. }
  assert (BP : pressure_bc_holds n m (f_p s')).
  { pose proof E as E2.
    apply timesteps_last_pressure with (ny := n) (nx := m) in E2 as
        (pn & q & b & Wq & Ep); try exact W; try lia.
    unfold pressure_poisson in Ep.
    destruct (@sweeps_last R _ (Z.to_nat 50) n m dx dy b q (f_p s') Wq)
      as (q' & Wq' & Es); [lia|exact Ep|].
    apply sweep_inv with (ny := n) (nx := m) in Es as [_ Es];
      try assumption; try lia.
    rewrite Es. unfold sweep_cells.
    apply (@pressure_bc_cells_holds R Scalar_R); try assumption.
    wf_tac. }
  rewrite E. cbn [bind lift and_then].
  exists (fst (meshgrid x y)), (snd (meshgrid x y)), (f_u s'), (f_v s'),
    (f_p s').
  split; [reflexivity|]. split; [exact U'|]. split; [exact V'|].
  split; [exact P'|]. split; assumption.
Qed.

End RealsMore.

(** ** Concrete runs of the further properties *)

Lemma agree_off_corners_ramp3 :
  agree_off_corners 3 3 ramp3_Q ramp3_corners_Q.
Proof.
  intros i j Hi Hj C.
  destruct i as [|[|[|i]]]; destruct j as [|[|[|j]]];
    try lia; try reflexivity; discriminate C.
Qed.

Lemma cavity_flow_preserves_shape_witness :
  wf 3 3 [[0; 0; 0]; [0; -15; 0]; [1; 1; 1]]%Q /\
  wf 3 3 [[0; 0; 0]; [0; -11; 0]; [0; 0; 0]]%Q /\
  wf 3 3 [[8; 8; 8]; [8; 8; 8]; [0; 0; 0]]%Q.
Proof.
  apply (@cavity_flow_preserves_shape Q _ [] [] (fun _ => []) 3 3 1%Z 1%Z
           ramp3_Q ramp3_Q 1%Q 1%Q 1%Q ramp3_Q 1%Q 1%Q);
    try wf_literal.
  vm_compute. reflexivity.
Defined.

Lemma kernels_preserve_shape_witness :
  wf 3 3 [[0; 0; 0]; [0; -12; 0]; [0; 0; 0]]%Q /\
  wf 3 3 [[9; 9; 9]; [9; 9; 9]; [0; 0; 0]]%Q.
Proof.
  apply (@kernels_preserve_shape Q _ 3 3 [] 2%Z zeros3_Q _ ramp3_Q _
           ramp3_Q ramp3_Q 1%Q 1%Q 1%Q 1%Q);
    try wf_literal; vm_compute; reflexivity.
Defined.

(** No sweep, and so no division, even with [dx = dy = 0]. *)
Lemma pressure_poisson_no_sweep_witness :
  pressure_poisson [] (-3) ramp3_Q 0%Q 0%Q src3_Q = Ok ramp3_Q.
Proof. apply pressure_poisson_no_sweep. lia. Defined.

Lemma pressure_poisson_index_error_witness :
  pressure_poisson [] 1 [[5%Q]] 1%Q 1%Q [[5%Q]] = Raise IndexError <->
  1 < 2 \/ 1 < 2.
Proof.
  apply (@pressure_poisson_index_error Q _ 1 1);
    [wf_literal | lia | split; reflexivity | reflexivity].
Defined.

Lemma pressure_bc_leaves_interior_witness :
  get bc3_Q 1 1 = get ramp3_Q 1 1.
Proof.
  apply (@pressure_bc_leaves_interior Q _ 3 3 ramp3_Q bc3_Q 1 1);
    [wf_literal | vm_compute; reflexivity | reflexivity].
Defined.

Lemma velocity_bc_leaves_interior_witness :
  get lid3_Q 1 1 = get ramp3_Q 1 1 /\ get walls3_Q 1 1 = get ramp3_Q 1 1.
Proof.
  apply (@velocity_bc_leaves_interior Q _ 3 3 ramp3_Q ramp3_Q lid3_Q
           walls3_Q 1 1);
    [wf_literal | wf_literal | vm_compute; reflexivity | reflexivity].
Defined.

Lemma pressure_poisson_continues_witness :
  pressure_poisson [] (1 + 1) ramp3_Q 1%Q 1%Q src3_Q =
  bind (pressure_poisson [] 1 ramp3_Q 1%Q 1%Q src3_Q)
       (fun q => pressure_poisson [] 1 q 1%Q 1%Q src3_Q).
Proof. apply pressure_poisson_continues; lia. Defined.

Lemma source_boundary_stays_zero_witness :
  let s' := Fields [[0; 0; 0]; [0; -15; 0]; [1; 1; 1]]%Q
                   [[0; 0; 0]; [0; -11; 0]; [0; 0; 0]]%Q
                   [[8; 8; 8]; [8; 8; 8]; [0; 0; 0]]%Q
                   [[0; 0; 0]; [0; -12; 0]; [0; 0; 0]]%Q in
  wf 3 3 (f_b s') /\ boundary_zero 3 3 (f_b s').
Proof.
  intros s'.
  apply (@source_boundary_stays_zero Q _ 1 3 3 (fun _ => []) 1%Z
           1%Q 1%Q 1%Q 1%Q 1%Q ramp3_Q ramp3_Q ramp3_Q s').
  vm_compute. reflexivity.
Defined.

Lemma cavity_flow_restarts_witness :
  cavity_flow [] [] (fun _ => []) 3 3 1 (1 + 1) ramp3_Q ramp3_Q
    1%Q 1%Q 1%Q ramp3_Q 1%Q 1%Q =
  bind (cavity_flow [] [] (fun _ => []) 3 3 1 1 ramp3_Q ramp3_Q
          1%Q 1%Q 1%Q ramp3_Q 1%Q 1%Q)
       (fun r =>
          cavity_flow [] [] (fun _ => []) 3 3 1 1 (fst (fst r)) (snd (fst r))
            1%Q 1%Q 1%Q (snd r) 1%Q 1%Q).
Proof. apply cavity_flow_restarts; lia. Defined.

Lemma pressure_bc_fixed_points_witness :
  pressure_bc bc3_Q = Ok bc3_Q <-> pressure_bc_holds 3 3 bc3_Q.
Proof.
  apply (@pressure_bc_fixed_points Q _ 3 3); [wf_literal | lia | lia].
Defined.

Lemma velocity_bc_fixed_points_witness :
  velocity_bc lid3_Q walls3_Q = Ok (lid3_Q, walls3_Q) <->
  velocity_bc_lid 3 3 lid3_Q walls3_Q.
Proof.
  apply (@velocity_bc_fixed_points Q _ 3 3);
    [wf_literal | wf_literal | lia | lia].
Defined.

Lemma cavity_flow_raises_no_index_error_witness :
  cavity_flow [] [] (fun _ => []) 3 3 1 1 zeros3_Q zeros3_Q 0%Q 1%Q 1%Q
    zeros3_Q 1%Q 1%Q = Raise ZeroDivisionError /\
  (ZeroDivisionError = ZeroDivisionError \/
   ZeroDivisionError = OverflowError).
Proof.
  assert (E : cavity_flow [] [] (fun _ => []) 3 3 1 1 zeros3_Q zeros3_Q
                0%Q 1%Q 1%Q zeros3_Q 1%Q 1%Q = Raise ZeroDivisionError)
    by (vm_compute; reflexivity).
  split; [exact E|].
  apply (@cavity_flow_raises_no_index_error Q _ [] [] (fun _ => []) 3 3
           1%Z 1%Z zeros3_Q zeros3_Q 0%Q 1%Q 1%Q zeros3_Q 1%Q 1%Q);
    try wf_literal; try lia. exact E.
Defined.

Lemma cavity_flow_returns_iff_scalars_defined_witness :
  (exists u' v' p',
      cavity_flow [] [] (fun _ => []) 3 3 1 1 ramp3_Q ramp3_Q 1%Q 1%Q 1%Q
        ramp3_Q 1%Q 1%Q = Ok (u', v', p')) <->
  scalars_defined 1%Q 1%Q 1%Q 1%Q.
Proof.
  apply (@cavity_flow_returns_iff_scalars_defined Q _ [] [] (fun _ => [])
           3 3);
    first [wf_literal | lia].
Defined.

Lemma cavity_flow_ignores_corners_witness :
  cavity_flow [] [] (fun _ => []) 3 3 1 1 ramp3_Q ramp3_Q 1%Q 1%Q 1%Q
    ramp3_Q 1%Q 1%Q =
  cavity_flow [] [] (fun _ => []) 3 3 1 1 ramp3_corners_Q ramp3_corners_Q
    1%Q 1%Q 1%Q ramp3_corners_Q 1%Q 1%Q.
Proof.
  apply (@cavity_flow_ignores_corners Q _ [] [] (fun _ => []) 3 3);
    try wf_literal; try lia; exact agree_off_corners_ramp3.
Defined.

Lemma cavity_flow_returns_pressure_bc_witness :
  pressure_bc_holds 3 3 [[8; 8; 8]; [8; 8; 8]; [0; 0; 0]]%Q.
Proof.
  apply (@cavity_flow_returns_pressure_bc Q _ [] [] (fun _ => []) 3 3
           1%Z 1%Z ramp3_Q ramp3_Q 1%Q 1%Q 1%Q ramp3_Q 1%Q 1%Q
           [[0; 0; 0]; [0; -15; 0]; [1; 1; 1]]%Q
           [[0; 0; 0]; [0; -11; 0]; [0; 0; 0]]%Q);
    try wf_literal; try lia.
  vm_compute. reflexivity.
Defined.

Lemma script_one_row_or_column_witness :
  script inject_Z (1 # 10)%Q [] [] (fun _ => []) 1 41 (1 # 1000)%Q =
  Aborted (Propagated ZeroDivisionError).
Proof. apply script_one_row_or_column. left. reflexivity. Defined.

Lemma script_negative_size_witness :
  script inject_Z (1 # 10)%Q [] [] (fun _ => []) (-2) 41 (1 # 1000)%Q =
  Aborted ValueError.
Proof. apply script_negative_size; lia. Defined.

Lemma script_mesh_matches_spacing_witness :
  exists X Y r,
    script IZR (1 / 10)%R [] [] (fun _ => []) 3 3 1%R = Finished (X, Y, r) /\
    get X 1 2 = (INR 2 * (2 / IZR (3 - 1)))%R /\
    get Y 1 2 = (INR 1 * (2 / IZR (3 - 1)))%R.
Proof.
  destruct (@script_returns [] [] (fun _ => []) 3%Z 3%Z 1%R)
    as (X & Y & r & E); try lia; try lra.
  exists X, Y, r. split; [exact E|].
  apply (@script_mesh_matches_spacing [] [] (fun _ => []) 3%Z 3%Z 1%R X Y r
           1 2); try lia. exact E.
Defined.

(** The reference run: a 41 x 41 grid and [dt = 0.001]. *)
Lemma script_fields_witness :
  exists X Y u v p,
    script IZR (1 / 10)%R [] [] (fun _ => []) 41 41 (1 / 1000)%R =
      Finished (X, Y, (u, v, p)) /\
    wf (Z.to_nat 41) (Z.to_nat 41) u /\
    wf (Z.to_nat 41) (Z.to_nat 41) v /\
    wf (Z.to_nat 41) (Z.to_nat 41) p /\
    velocity_bc_lid (Z.to_nat 41) (Z.to_nat 41) u v /\
    pressure_bc_holds (Z.to_nat 41) (Z.to_nat 41) p.
Proof. apply script_fields; try lia; lra. Defined.
